(** * pg_ext_demo: the setup / demo / teardown lifecycle of the extension demo

    A shallow embedding of [src/pg_demo/pg_ext_demo.py].  The script drives a
    PostgreSQL server through psycopg2; the server is an external
    collaborator, so it appears here as an interface ([Database]) and the
    script's functions are written against it in a small state-and-exception
    monad.  Every database call of the script appends an [Event] to a trace,
    which is what the statements about "issued" SQL talk about.  Console
    output ([print], [LINFO], ...) has no effect on control flow or on the
    database and is left out; [prompt] is kept because [input()] can raise. *)

From stdpp Require Import gmap strings list.

Open Scope string_scope.
Open Scope list_scope.

(** ** Sessions, statements, events, exceptions *)

(** [conn] is the primary session of [run_demo]; [uconn] is the session that
    [demo_unprivileged_user] opens under the restricted identity. *)
Inductive Conn := Primary | Secondary.

(** One constructor for each SQL text the script sends, named after the
    function and the statement. *)
Inductive Stmt :=
  (* check_preload_library, check_existing_extensions *)
  | SelPreload | SelExtensions
  (* setup_demo *)
  | CreateSchema | CreateExtTrgm | CreateExtPss | SetSearchPath
  (* teardown_demo *)
  | RevokeFunction | RevokeSchema | RevokeDatabase
  | DropSchema | DropRole | SelDemoExts | DropExtension (extname : string)
  (* demo_pss_table *)
  | PssReset | Query1 | Query2 | Query3 | SelPssQueries
  (* create_unpriveleged_user *)
  | CreateUser | GrantConnect | GrantUsage | AlterUserSearchPath
  (* demo_unprivileged_user *)
  | SelPssUnpriv | CreateFunction | GrantExecute | SelCurrentUser | SelPssFunction
  (* demo_pg_trgm and its helpers *)
  | CreateAddrTable | CopyAddr | AnalyzeAddr
  | CreateBtreeIndex | CreateGinIndex | ExplainLike10 | ExplainLikeAin.

Inductive Event :=
  | EConnect (c : Conn)            (* session established *)
  | EExec (c : Conn) (s : Stmt)    (* statement sent through [execute] *)
  | ECommit (c : Conn)
  | ERollback (c : Conn)
  | EClose (c : Conn)
  | EAutocommit (b : bool)         (* conn.autocommit = b *)
  | EPrompt.                       (* input() *)

(** Python exceptions.  [KeyboardInterrupt] derives from [BaseException]
    only, so [except Exception] does not catch it; all the others do derive
    from [Exception]. *)
Inductive Exc :=
  | DbError (s : Stmt)             (* psycopg2.Error raised by the statement *)
  | InFailedSqlTransaction         (* statement sent in an aborted transaction *)
  | OperationalError               (* connect() refused *)
  | InterfaceError                 (* use of a closed connection *)
  | ProgrammingError               (* autocommit changed inside a transaction *)
  | AttributeError                 (* attribute of [None] after fetchone() *)
  | EOFError                       (* input() at end of stdin *)
  | KeyboardInterrupt.

Definition is_Exception (e : Exc) : bool :=
  match e with KeyboardInterrupt => false | _ => true end.

Inductive Result (A : Type) :=
  | Ok (a : A)
  | Raise (e : Exc).
Arguments Ok {A} a.
Arguments Raise {A} e.

(** What the user does at a [prompt]. *)
Inductive Key := Enter | CtrlC.

(** Transaction status of a psycopg2 connection. *)
Inductive TxStatus := Idle | InTxn | Aborted.

(** ** The database as an opaque command executor

    [sem s d] is what the server does with statement [s] of the primary
    (superuser) session in state [d]: [None] when the statement fails,
    otherwise the new state and the rows, each row given by its first
    column.  [usem] is the same for the restricted session, whose statements
    are all reads.  [can_connect] tells whether a login succeeds. *)
Class Database (D : Type) := {
  sem : Stmt -> D -> option (D * list string);
  usem : Stmt -> D -> option (list string);
  can_connect : Conn -> D -> bool
}.

Definition UNPRIV_USER : string := "__monitor".

(** [lib_name in res.setting] on Python strings. *)
Fixpoint contains (needle hay : string) : bool :=
  String.prefix needle hay
  || match hay with
     | EmptyString => false
     | String _ rest => contains needle rest
     end.

Section Script.
Context {D : Type} `{Database D}.

(** ** The world the script runs in *)
Record World := mkWorld {
  committed : D;                  (* durable state of the database *)
  working : D;                    (* state seen by the primary session *)
  txn : TxStatus;                 (* primary session *)
  autocommit : bool;              (* primary session *)
  uconn : option TxStatus;        (* restricted session, [None] when closed *)
  EXTENSIONS : gset string;       (* the module-level registry *)
  stdin : list Key;
  trace : list Event
}.

Definition log (e : Event) (w : World) : World :=
  mkWorld (committed w) (working w) (txn w) (autocommit w) (uconn w)
          (EXTENSIONS w) (stdin w) (trace w ++ [e]).

Definition set_db (c d : D) (t : TxStatus) (w : World) : World :=
  mkWorld c d t (autocommit w) (uconn w) (EXTENSIONS w) (stdin w) (trace w).

Definition set_txn (t : TxStatus) (w : World) : World :=
  set_db (committed w) (working w) t w.

Definition set_autocommit_flag (b : bool) (w : World) : World :=
  mkWorld (committed w) (working w) (txn w) b (uconn w)
          (EXTENSIONS w) (stdin w) (trace w).

Definition set_uconn (u : option TxStatus) (w : World) : World :=
  mkWorld (committed w) (working w) (txn w) (autocommit w) u
          (EXTENSIONS w) (stdin w) (trace w).

Definition set_EXTENSIONS (E : gset string) (w : World) : World :=
  mkWorld (committed w) (working w) (txn w) (autocommit w) (uconn w)
          E (stdin w) (trace w).

Definition set_stdin (l : list Key) (w : World) : World :=
  mkWorld (committed w) (working w) (txn w) (autocommit w) (uconn w)
          (EXTENSIONS w) l (trace w).

(** ** State and exception monad *)
Definition M (A : Type) : Type := World -> World * Result A.

Definition ret {A} (a : A) : M A := fun w => (w, Ok a).

Definition raise {A} (e : Exc) : M A := fun w => (w, Raise e).

Definition bind {A B} (m : M A) (k : A -> M B) : M B :=
  fun w =>
    match m w with
    | (w', Ok a) => k a w'
    | (w', Raise e) => (w', Raise e)
    end.

(** [try: body  except Exception as e: handler e  else: orelse]. *)
Definition try_except_else {A B} (body : M A) (handler : Exc -> M B)
    (orelse : A -> M B) : M B :=
  fun w =>
    match body w with
    | (w', Ok a) => orelse a w'
    | (w', Raise e) => if is_Exception e then handler e w' else (w', Raise e)
    end.

(** [try: body  except Exception: handler]. *)
Definition try_except {A} (body : M A) (handler : Exc -> M A) : M A :=
  try_except_else body handler ret.

(** [try: body  finally: fin]; an exception of [fin] replaces the outcome
    of [body]. *)
Definition try_finally {A} (body : M A) (fin : M unit) : M A :=
  fun w =>
    match body w with
    | (w', r) =>
        match fin w' with
        | (w'', Ok _) => (w'', r)
        | (w'', Raise e) => (w'', Raise e)
        end
    end.

(** [for x in xs: body x]. *)
Fixpoint for_each {A} (xs : list A) (body : A -> M unit) : M unit :=
  match xs with
  | [] => ret tt
  | x :: rest => bind (body x) (fun _ => for_each rest body)
  end.

(** [for _ in range(n): body]. *)
Definition repeat_n (n : nat) (body : M unit) : M unit :=
  for_each (seq 0 n) (fun _ => body).

End Script.

Arguments World D : clear implicits.
Arguments M D A : clear implicits.

Declare Scope py_scope.
Delimit Scope py_scope with py.
Notation "'let*' x ':=' m 'in' k" := (bind m (fun x => k))
  (at level 10, x name, m at level 100, k at level 200) : py_scope.
Notation "m '>>' k" := (bind m (fun _ => k))
  (at level 90, right associativity) : py_scope.
Open Scope py_scope.

Section Primitives.
Context {D : Type} `{Database D}.

(** ** psycopg2 calls *)

(** [psycopg2.connect].  The primary session starts idle, not in
    autocommit, seeing the durable state. *)
Definition connect (c : Conn) : M D unit :=
  fun w =>
    if can_connect c (committed w) then
      match c with
      | Primary =>
          (log (EConnect Primary)
             (set_autocommit_flag false (set_db (committed w) (committed w) Idle w)),
           Ok tt)
      | Secondary => (log (EConnect Secondary) (set_uconn (Some Idle) w), Ok tt)
      end
    else (w, Raise OperationalError).

(** [execute(conn, sql)]: [conn.cursor()] then [cur.execute(sql)].  Outside
    autocommit the first statement opens a transaction; a failing statement
    aborts it, and every statement sent in an aborted transaction fails
    until the next rollback.  In autocommit each statement is durable at
    once and no transaction is opened, which is what psycopg2 does up to
    2.8 (from 2.9 on, a connection used in a [with] block opens a
    transaction in autocommit too).  The restricted session reads the
    durable state. *)
Definition execute (c : Conn) (s : Stmt) : M D (list string) :=
  fun w0 =>
    let w := log (EExec c s) w0 in
    match c with
    | Primary =>
        if autocommit w then
          match sem s (working w) with
          | Some (d, rows) => (set_db d d (txn w) w, Ok rows)
          | None => (w, Raise (DbError s))
          end
        else
          match txn w with
          | Aborted => (w, Raise InFailedSqlTransaction)
          | _ =>
              match sem s (working w) with
              | Some (d, rows) => (set_db (committed w) d InTxn w, Ok rows)
              | None => (set_txn Aborted w, Raise (DbError s))
              end
          end
    | Secondary =>
        match uconn w with
        | None => (w, Raise InterfaceError)
        | Some Aborted => (w, Raise InFailedSqlTransaction)
        | Some _ =>
            match usem s (committed w) with
            | Some rows => (set_uconn (Some InTxn) w, Ok rows)
            | None => (set_uconn (Some Aborted) w, Raise (DbError s))
            end
        end
    end.

(** [conn.commit()].  Committing an aborted transaction ends it without
    keeping anything. *)
Definition commit (c : Conn) : M D unit :=
  fun w0 =>
    let w := log (ECommit c) w0 in
    match c with
    | Primary =>
        match txn w with
        | Aborted => (set_db (committed w) (committed w) Idle w, Ok tt)
        | _ => (set_db (working w) (working w) Idle w, Ok tt)
        end
    | Secondary =>
        match uconn w with
        | None => (w, Raise InterfaceError)
        | Some _ => (set_uconn (Some Idle) w, Ok tt)
        end
    end.

(** [conn.rollback()]. *)
Definition rollback (c : Conn) : M D unit :=
  fun w0 =>
    let w := log (ERollback c) w0 in
    match c with
    | Primary => (set_db (committed w) (committed w) Idle w, Ok tt)
    | Secondary =>
        match uconn w with
        | None => (w, Raise InterfaceError)
        | Some _ => (set_uconn (Some Idle) w, Ok tt)
        end
    end.

(** [uconn.close()]. *)
Definition close_uconn : M D unit :=
  fun w => (set_uconn None (log (EClose Secondary) w), Ok tt).

(** [conn.autocommit = b]; psycopg2 refuses the change inside a
    transaction. *)
Definition set_autocommit (b : bool) : M D unit :=
  fun w =>
    match txn w with
    | Idle => (set_autocommit_flag b (log (EAutocommit b) w), Ok tt)
    | _ => (w, Raise ProgrammingError)
    end.

(** [prompt(message)]: [input()] returns on Enter, raises
    [KeyboardInterrupt] on an interrupt and [EOFError] when stdin is
    exhausted. *)
Definition prompt : M D unit :=
  fun w0 =>
    let w := log EPrompt w0 in
    match stdin w with
    | [] => (w, Raise EOFError)
    | Enter :: rest => (set_stdin rest w, Ok tt)
    | CtrlC :: rest => (set_stdin rest w, Raise KeyboardInterrupt)
    end.

(** Reading and extending the global [EXTENSIONS]. *)
Definition get_EXTENSIONS : M D (gset string) :=
  fun w => (w, Ok (EXTENSIONS w)).

Definition EXTENSIONS_add (name : string) : M D unit :=
  fun w => (set_EXTENSIONS ({[ name ]} ∪ EXTENSIONS w) w, Ok tt).

(** [fetchone()] on the rows of a cursor. *)
Definition fetchone (rows : list string) : option string := head rows.

End Primitives.

Section Demo.
Context {D : Type} `{Database D}.

(** ** Validation (lines 86-97, 606-622) *)

Definition check_preload_library (lib_name : string) : M D bool :=
  let* rows := execute Primary SelPreload in
  match fetchone rows with
  | None => ret false
  | Some setting =>
      if contains lib_name setting then ret true else ret false
  end.

Definition check_existing_extensions : M D unit :=
  let* rows := execute Primary SelExtensions in
  for_each rows EXTENSIONS_add >>
  rollback Primary.

Definition validate_demo : M D bool :=
  let* loaded := check_preload_library "pg_stat_statements" in
  if loaded then check_existing_extensions >> ret true
  else ret false.

(** ** Setup (lines 100-127) *)

(** The body of the [try]. *)
Definition setup_statements : M D unit :=
  execute Primary CreateSchema >>
  let* exts := get_EXTENSIONS in
  (if decide ("pg_trgm" ∈ exts) then ret tt
   else execute Primary CreateExtTrgm >> ret tt) >>
  let* exts := get_EXTENSIONS in
  (if decide ("pg_stat_statements" ∈ exts) then ret tt
   else execute Primary CreateExtPss >> ret tt) >>
  execute Primary SetSearchPath >>
  ret tt.

Definition setup_demo : M D unit :=
  try_except_else setup_statements
    (fun e => rollback Primary >> raise e)
    (fun _ => commit Primary).

(** ** Teardown (lines 130-168) *)

(** Lines 133-146: the three guarded revokes. *)
Definition teardown_revokes : M D unit :=
  try_except (execute Primary RevokeFunction >> ret tt)
             (fun _ => rollback Primary) >>
  try_except (execute Primary RevokeSchema >> ret tt)
             (fun _ => rollback Primary) >>
  try_except (execute Primary RevokeDatabase >> ret tt)
             (fun _ => rollback Primary).

(** Body of the loop of lines 163-166. *)
Definition drop_unless_registered (extname : string) : M D unit :=
  let* exts := get_EXTENSIONS in
  if decide (extname ∈ exts) then ret tt
  else execute Primary (DropExtension extname) >> ret tt.

(** Lines 148-168: the unguarded drops. *)
Definition teardown_drops : M D unit :=
  execute Primary DropSchema >>
  execute Primary DropRole >>
  commit Primary >>
  let* rows := execute Primary SelDemoExts in
  for_each rows drop_unless_registered >>
  commit Primary.

Definition teardown_demo : M D unit :=
  teardown_revokes >> teardown_drops.

(** ** The pg_stat_statements demo (lines 171-364) *)

Definition intro_pg_stat_statements : M D unit := prompt.

Definition demo_pss_table : M D unit :=
  execute Primary PssReset >>
  commit Primary >>
  prompt >>
  repeat_n 5 (execute Primary Query1 >> ret tt) >>
  execute Primary Query2 >>
  repeat_n 3 (execute Primary Query3 >> ret tt) >>
  prompt >>
  execute Primary SelPssQueries >>
  rollback Primary >>
  prompt.

Definition create_unpriveleged_user : M D unit :=
  execute Primary CreateUser >>
  execute Primary GrantConnect >>
  execute Primary GrantUsage >>
  execute Primary AlterUserSearchPath >>
  commit Primary.

(** The body of the [try] of [demo_unprivileged_user] (lines 318-354). *)
Definition unprivileged_statements : M D unit :=
  execute Secondary SelPssUnpriv >>
  prompt >>
  execute Primary CreateFunction >>
  execute Primary GrantExecute >>
  commit Primary >>
  let* rows := execute Secondary SelCurrentUser in
  match fetchone rows with
  | None => raise AttributeError
  | Some _ =>
      prompt >>
      execute Secondary SelPssFunction >>
      prompt
  end.

Definition demo_unprivileged_user (init_demo : bool) : M D unit :=
  prompt >>
  (if init_demo then create_unpriveleged_user else ret tt) >>
  connect Secondary >>
  try_finally unprivileged_statements
              (rollback Secondary >> close_uconn) >>
  rollback Primary.

Definition demo_pg_stat_statements (init_demo : bool) : M D unit :=
  intro_pg_stat_statements >>
  demo_pss_table >>
  demo_unprivileged_user init_demo.

(** ** The pg_trgm demo (lines 367-603) *)

Definition create_addr_table : M D unit :=
  execute Primary CreateAddrTable >>
  commit Primary.

(** [create_addr_data] only fills a temporary file; [copy_from] sends it. *)
Definition copy_addr_data : M D unit :=
  execute Primary CopyAddr >>
  commit Primary.

Definition load_addr_table : M D unit :=
  repeat_n 10 copy_addr_data >>
  commit Primary.

Definition init_pg_trgm : M D unit :=
  try_except_else (create_addr_table >> load_addr_table)
    (fun e => rollback Primary >> raise e)
    (fun _ =>
       set_autocommit true >>
       execute Primary AnalyzeAddr >>
       set_autocommit false >>
       prompt).

Definition create_addr_btree_index : M D unit :=
  execute Primary CreateBtreeIndex >>
  commit Primary >>
  set_autocommit true >>
  execute Primary AnalyzeAddr >>
  set_autocommit false.

(** Both [test_addr_*_index] functions run the same two EXPLAIN ANALYZE
    queries; closing the cursor in their [finally] is not a session event. *)
Definition test_addr_btree_index : M D unit :=
  execute Primary ExplainLike10 >>
  prompt >>
  execute Primary ExplainLikeAin >>
  rollback Primary >>
  prompt.

Definition create_addr_gin_index : M D unit :=
  execute Primary CreateGinIndex >>
  commit Primary >>
  set_autocommit true >>
  execute Primary AnalyzeAddr >>
  set_autocommit false.

Definition test_addr_gin_index : M D unit :=
  execute Primary ExplainLike10 >>
  prompt >>
  execute Primary ExplainLikeAin >>
  rollback Primary >>
  prompt.

Definition intro_pg_trgm : M D unit := prompt.

Definition demo_pg_trgm (init_demo : bool) : M D unit :=
  intro_pg_trgm >>
  (if init_demo then init_pg_trgm else ret tt) >>
  prompt >>
  create_addr_btree_index >>
  test_addr_btree_index >>
  prompt >>
  create_addr_gin_index >>
  test_addr_gin_index >>
  prompt.

(** ** The orchestrator (lines 625-637) *)

(** [with connect(db_url) as conn: body].  Leaving the block commits when
    the body returned and rolls back when it raised; the connection stays
    open. *)
Definition with_connect {A} (body : M D A) : M D A :=
  connect Primary >>
  fun w =>
    match body w with
    | (w', Ok a) => (commit Primary >> ret a) w'
    | (w', Raise e) => (rollback Primary >> raise e) w'
    end.

(** The body of the [try] of [run_demo]. *)
Definition run_phases (init_demo block_demo : bool) : M D unit :=
  let* go := (if negb block_demo then validate_demo else ret false) in
  if go then
    (if init_demo then setup_demo else ret tt) >>
    demo_pg_trgm init_demo >>
    demo_pg_stat_statements init_demo
  else ret tt.

(** The [finally] of [run_demo]. *)
Definition run_cleanup (teardown block_demo : bool) : M D unit :=
  if teardown || block_demo then teardown_demo else ret tt.

Definition run_demo (init_demo teardown block_demo : bool) : M D unit :=
  with_connect
    (try_finally (run_phases init_demo block_demo)
                 (run_cleanup teardown block_demo)).

(** The world at process start: nothing registered, no session yet. *)
Definition start (d : D) (keys : list Key) : World D :=
  mkWorld d d Idle false None ∅ keys [].

End Demo.

(** ** A PostgreSQL server, as far as the demo touches it

    The objects the script creates and drops, with the dependency rules
    PostgreSQL enforces between them.  The generic results below hold for
    every [Database]; this instance is the one the concrete runs and the
    state-dependent results use. *)
Module Pg.

Record State := mk {
  preload : option string;   (* row of shared_preload_libraries, if any *)
  has_postgres : bool;       (* a database named postgres exists *)
  available : gset string;   (* extensions the server can install *)
  exts : gset string;        (* pg_catalog.pg_extension *)
  schema : bool;             (* __demo *)
  addr : bool;               (* __demo.addr *)
  gin : bool;                (* ix_addr_street_gin, needs pg_trgm *)
  func : bool;               (* __demo.pg_stat_statements() *)
  role : bool;               (* __monitor *)
  priv_db : bool;            (* connect on database postgres *)
  priv_schema : bool;        (* usage on schema __demo *)
  priv_func : bool;          (* execute on the function *)
  search_path_demo : bool    (* search_path = __demo, public *)
}.

Definition demo_extensions : list string := ["pg_trgm"; "pg_stat_statements"].

Definition installed (name : string) (d : State) : bool :=
  bool_decide (name ∈ exts d).

(** The library is listed in shared_preload_libraries. *)
Definition preloaded (d : State) : bool :=
  match preload d with
  | Some setting => contains "pg_stat_statements" setting
  | None => false
  end.

(** pg_stat_statements answers only when installed and preloaded. *)
Definition pss_active (d : State) : bool :=
  installed "pg_stat_statements" d && preloaded d.

Definition set_exts (E : gset string) (d : State) : State :=
  mk (preload d) (has_postgres d) (available d) E (schema d) (addr d) (gin d)
     (func d) (role d) (priv_db d) (priv_schema d) (priv_func d)
     (search_path_demo d).

Definition set_schema (b : bool) (d : State) : State :=
  mk (preload d) (has_postgres d) (available d) (exts d) b (addr d) (gin d)
     (func d) (role d) (priv_db d) (priv_schema d) (priv_func d)
     (search_path_demo d).

Definition set_addr (b : bool) (d : State) : State :=
  mk (preload d) (has_postgres d) (available d) (exts d) (schema d) b (gin d)
     (func d) (role d) (priv_db d) (priv_schema d) (priv_func d)
     (search_path_demo d).

Definition set_gin (b : bool) (d : State) : State :=
  mk (preload d) (has_postgres d) (available d) (exts d) (schema d) (addr d) b
     (func d) (role d) (priv_db d) (priv_schema d) (priv_func d)
     (search_path_demo d).

Definition set_func (b : bool) (d : State) : State :=
  mk (preload d) (has_postgres d) (available d) (exts d) (schema d) (addr d)
     (gin d) b (role d) (priv_db d) (priv_schema d) (priv_func d)
     (search_path_demo d).

Definition set_role (b : bool) (d : State) : State :=
  mk (preload d) (has_postgres d) (available d) (exts d) (schema d) (addr d)
     (gin d) (func d) b (priv_db d) (priv_schema d) (priv_func d)
     (search_path_demo d).

Definition set_priv_db (b : bool) (d : State) : State :=
  mk (preload d) (has_postgres d) (available d) (exts d) (schema d) (addr d)
     (gin d) (func d) (role d) b (priv_schema d) (priv_func d)
     (search_path_demo d).

Definition set_priv_schema (b : bool) (d : State) : State :=
  mk (preload d) (has_postgres d) (available d) (exts d) (schema d) (addr d)
     (gin d) (func d) (role d) (priv_db d) b (priv_func d)
     (search_path_demo d).

Definition set_priv_func (b : bool) (d : State) : State :=
  mk (preload d) (has_postgres d) (available d) (exts d) (schema d) (addr d)
     (gin d) (func d) (role d) (priv_db d) (priv_schema d) b
     (search_path_demo d).

Definition set_search_path_demo (b : bool) (d : State) : State :=
  mk (preload d) (has_postgres d) (available d) (exts d) (schema d) (addr d)
     (gin d) (func d) (role d) (priv_db d) (priv_schema d) (priv_func d) b.

(** A statement that succeeds without rows when [cond] holds. *)
Definition when_ok (cond : bool) (d : State) : option (State * list string) :=
  if cond then Some (d, []) else None.

Definition create_extension (name : string) (d : State)
  : option (State * list string) :=
  when_ok (negb (installed name d) && bool_decide (name ∈ available d))
          (set_exts ({[ name ]} ∪ exts d) d).

(** [drop schema if exists __demo cascade] takes the table, its indexes,
    the function and the privileges granted on them along. *)
Definition drop_schema_cascade (d : State) : State :=
  set_priv_func false (set_priv_schema false
    (set_func false (set_gin false (set_addr false (set_schema false d))))).

(** Objects that keep an extension from being dropped without cascade. *)
Definition extension_in_use (name : string) (d : State) : bool :=
  (bool_decide (name = "pg_trgm") && gin d)
  || (bool_decide (name = "pg_stat_statements") && func d).

Definition exec (s : Stmt) (d : State) : option (State * list string) :=
  match s with
  | SelPreload => Some (d, option_list (preload d))
  | SelExtensions => Some (d, elements (exts d))
  | CreateSchema => when_ok (negb (schema d)) (set_schema true d)
  | CreateExtTrgm => create_extension "pg_trgm" d
  | CreateExtPss => create_extension "pg_stat_statements" d
  | SetSearchPath => Some (set_search_path_demo true d, [])
  | RevokeFunction => when_ok (role d && func d) (set_priv_func false d)
  | RevokeSchema => when_ok (role d && schema d) (set_priv_schema false d)
  | RevokeDatabase => when_ok (role d && has_postgres d) (set_priv_db false d)
  | DropSchema => Some (drop_schema_cascade d, [])
  | DropRole =>
      if role d
      then when_ok (negb (priv_db d || priv_schema d || priv_func d))
                   (set_role false d)
      else Some (d, [])
  | SelDemoExts =>
      Some (d, List.filter (fun name => installed name d) demo_extensions)
  | DropExtension name =>
      if installed name d
      then when_ok (negb (extension_in_use name d))
                   (set_exts (exts d ∖ {[ name ]}) d)
      else Some (d, [])
  | PssReset | SelPssQueries | SelPssUnpriv => when_ok (pss_active d) d
  | Query1 | Query2 | Query3 => when_ok (addr d) d
  | CreateUser => when_ok (negb (role d)) (set_role true d)
  | GrantConnect => when_ok (role d && has_postgres d) (set_priv_db true d)
  | GrantUsage => when_ok (role d && schema d) (set_priv_schema true d)
  | AlterUserSearchPath => when_ok (role d) d
  | CreateFunction =>
      when_ok (schema d && installed "pg_stat_statements" d) (set_func true d)
  | GrantExecute => when_ok (role d && func d) (set_priv_func true d)
  | SelCurrentUser => Some (d, ["postgres"])
  | SelPssFunction => when_ok (func d && pss_active d) d
  | CreateAddrTable => when_ok (schema d && negb (addr d)) (set_addr true d)
  | CopyAddr | AnalyzeAddr | CreateBtreeIndex | ExplainLike10 | ExplainLikeAin =>
      when_ok (addr d) d
  | CreateGinIndex => when_ok (addr d && installed "pg_trgm" d) (set_gin true d)
  end.

(** The restricted role only reads. *)
Definition uexec (s : Stmt) (d : State) : option (list string) :=
  match s with
  | SelPssUnpriv => if pss_active d then Some [] else None
  | SelCurrentUser => Some [UNPRIV_USER]
  | SelPssFunction =>
      if priv_schema d && priv_func d && func d && pss_active d
      then Some [] else None
  | _ => None
  end.

Definition login (c : Conn) (d : State) : bool :=
  match c with
  | Primary => true
  | Secondary => role d
  end.

#[global] Instance database : Database State :=
  {| sem := exec; usem := uexec; can_connect := login |}.

(** A fresh server with the library preloaded and nothing installed. *)
Definition fresh : State :=
  mk (Some "pg_stat_statements") true {[ "pg_trgm"; "pg_stat_statements" ]} ∅
     false false false false false false false false false.

(** The same server without the library in shared_preload_libraries. *)
Definition not_preloaded : State :=
  mk (Some "auto_explain") true {[ "pg_trgm"; "pg_stat_statements" ]} ∅
     false false false false false false false false false.

(** A preloaded server on which a DBA installed pg_trgm before any demo. *)
Definition with_trgm : State := set_exts {[ "pg_trgm"; "plpgsql" ]} fresh.

(** The same, with the library missing from shared_preload_libraries. *)
Definition with_trgm_not_preloaded : State :=
  set_exts {[ "pg_trgm"; "plpgsql" ]} not_preloaded.

(** A server that cannot install pg_trgm. *)
Definition without_trgm_package : State :=
  mk (Some "pg_stat_statements") true {[ "pg_stat_statements" ]} ∅
     false false false false false false false false false.

(** What a full demo run without teardown leaves behind. *)
Definition after_demo : State :=
  mk (Some "pg_stat_statements") true {[ "pg_trgm"; "pg_stat_statements" ]}
     {[ "pg_trgm"; "pg_stat_statements" ]}
     true true true true true true true true true.

(** The demo objects on a server that has no database named postgres, so
    that [revoke all on database postgres] fails. *)
Definition no_postgres_database : State :=
  mk (Some "pg_stat_statements") false {[ "pg_trgm"; "pg_stat_statements" ]}
     {[ "pg_trgm"; "pg_stat_statements" ]}
     true true true true true false true true true.

(** Nothing of the demo is left: the namespace with all it contained, and
    the restricted role. *)
Definition torn_down (d : State) : Prop :=
  schema d = false /\ addr d = false /\ gin d = false /\ func d = false
  /\ priv_schema d = false /\ priv_func d = false /\ role d = false.

(** Every demo extension still installed is in the registry [E]. *)
Definition only_registered (E : gset string) (d : State) : Prop :=
  forall name, In name demo_extensions -> name ∈ exts d -> name ∈ E.

End Pg.


(** ** Vocabulary of the properties *)

(** The lifecycle phase a statement belongs to. *)
Inductive Phase := Validation | Setup | Demo | Teardown.

Definition phase_of (s : Stmt) : Phase :=
  match s with
  | SelPreload | SelExtensions => Validation
  | CreateSchema | CreateExtTrgm | CreateExtPss | SetSearchPath => Setup
  | RevokeFunction | RevokeSchema | RevokeDatabase
  | DropSchema | DropRole | SelDemoExts | DropExtension _ => Teardown
  | _ => Demo
  end.

(** Statements that create a database object. *)
Definition creates_object (s : Stmt) : bool :=
  match s with
  | CreateSchema | CreateExtTrgm | CreateExtPss | CreateUser | CreateFunction
  | CreateAddrTable | CreateBtreeIndex | CreateGinIndex => true
  | _ => false
  end.

(** An event that is neither a setup, nor a demo, nor an object-creation
    statement. *)
Definition harmless (e : Event) : Prop :=
  match e with
  | EExec _ s => phase_of s <> Setup /\ phase_of s <> Demo /\ creates_object s = false
  | _ => True
  end.

(** The namespace-drop statement of teardown. *)
Definition is_ns_drop (e : Event) : bool :=
  match e with
  | EExec Primary DropSchema => true
  | _ => false
  end.

Definition is_commit (e : Event) : bool :=
  match e with
  | ECommit Primary => true
  | _ => false
  end.

(** A statement of the setup phase sent on the primary session. *)
Definition is_setup_exec (e : Event) : Prop :=
  match e with
  | EExec Primary s => phase_of s = Setup
  | _ => False
  end.

Definition count (p : Event -> bool) (evs : list Event) : nat :=
  length (List.filter p evs).

Definition is_Raise {A} (r : Result A) : bool :=
  match r with
  | Raise _ => true
  | Ok _ => false
  end.

Section Logic.
Context {D : Type} `{Database D}.

(** One of the three [try: execute(revoke ...) except Exception:
    conn.rollback()] blocks of teardown. *)
Definition guarded_revoke (s : Stmt) : M D unit :=
  try_except (execute Primary s >> ret tt) (fun _ => rollback Primary).

(** [respects R m]: every run of [m] takes a world to an [R]-related one,
    whatever the outcome. *)
Definition respects (R : World D -> World D -> Prop) {A} (m : M D A) : Prop :=
  forall w, R w (fst (m w)).

(** The trace only grows, by events that satisfy [P]. *)
Definition emitting (P : Event -> Prop) (w w' : World D) : Prop :=
  exists evs, trace w' = trace w ++ evs /\ Forall P evs.

(** The restricted session is neither opened nor closed. *)
Definition uconn_kept (w w' : World D) : Prop :=
  is_Some (uconn w') <-> is_Some (uconn w).

(** A computation that, when it returns, leaves no transaction open. *)
Definition ends_idle {A} (m : M D A) : Prop :=
  forall w, match m w with
            | (w', Ok _) => txn w' = Idle
            | (_, Raise _) => True
            end.

(** A computation that does not touch the transaction status. *)
Definition keeps_txn {A} (m : M D A) : Prop :=
  forall w, txn (fst (m w)) = txn w.

(** After a statement succeeded, the primary session is not in an aborted
    transaction, unless it is in autocommit. *)
Definition settled (w : World D) : Prop :=
  txn w <> Aborted \/ committed w = working w.

(** The primary session sees exactly the durable state [d], with registry
    [E], and is not in an aborted transaction. *)
Definition steady (d : D) (E : gset string) (w : World D) : Prop :=
  working w = d /\ committed w = d /\ txn w <> Aborted /\ EXTENSIONS w = E.

(** The rollback the handler of a guarded statement issues, if any. *)
Definition rollback_if_raised {A} (r : Result A) : list Event :=
  if is_Raise r then [ERollback Primary] else [].

End Logic.

(** * The rest of the script

    The command line, the text helpers, a database with injected faults,
    and the vocabulary of the properties stated about them. *)

(** ** The command line (lines 640-655) *)

(** The options argparse knows. *)
Inductive Arg :=
  | ArgUrl (db_url : string)   (* --url DB_URL *)
  | ArgNoInit                  (* --no-init *)
  | ArgNoTeardown              (* --no-teardown *)
  | ArgOnlyTeardown.           (* --only-teardown *)

(** The namespace [parse_args] returns. *)
Record Args := mkArgs {
  db_url : string;
  init_demo : bool;
  teardown : bool;
  block_demo : bool
}.

Definition is_url (a : Arg) : option string :=
  match a with ArgUrl u => Some u | _ => None end.

Definition is_flag (f a : Arg) : bool :=
  match f, a with
  | ArgNoInit, ArgNoInit | ArgNoTeardown, ArgNoTeardown
  | ArgOnlyTeardown, ArgOnlyTeardown => true
  | _, _ => false
  end.

(** [parser.parse_args()]: [--url] is required (the last one given wins),
    [--no-teardown] and [--only-teardown] form a mutually exclusive group.
    [None] is argparse's error exit. *)
Definition parse_args (argv : list Arg) : option Args :=
  match last (omap is_url argv) with
  | None => None
  | Some url =>
      if existsb (is_flag ArgNoTeardown) argv
         && existsb (is_flag ArgOnlyTeardown) argv
      then None
      else Some (mkArgs url
                   (negb (existsb (is_flag ArgNoInit) argv))
                   (negb (existsb (is_flag ArgNoTeardown) argv))
                   (existsb (is_flag ArgOnlyTeardown) argv))
  end.

(** An event that is not a statement of teardown. *)
Definition no_teardown_stmt (e : Event) : Prop :=
  match e with
  | EExec _ s => phase_of s <> Teardown
  | _ => True
  end.

(** An event that is no statement, or a statement of teardown on the
    primary session. *)
Definition only_teardown_stmt (e : Event) : Prop :=
  match e with
  | EExec Primary s => phase_of s = Teardown
  | EExec Secondary _ => False
  | _ => True
  end.

(** Any event but the drop of an extension that the registry [E] holds. *)
Definition drop_allowed (E : gset string) (e : Event) : Prop :=
  match e with
  | EExec _ (DropExtension name) => name ∉ E
  | _ => True
  end.

(** The event installs the extension [name]. *)
Definition is_create_extension (name : string) (e : Event) : bool :=
  match e with
  | EExec _ CreateExtTrgm => bool_decide (name = "pg_trgm")
  | EExec _ CreateExtPss => bool_decide (name = "pg_stat_statements")
  | _ => false
  end.

Section Main.
Context {D : Type} `{Database D}.

(** [try: body  except KeyboardInterrupt: handler]. *)
Definition try_except_interrupt {A} (body : M D A) (handler : M D A) : M D A :=
  fun w =>
    match body w with
    | (w', Raise KeyboardInterrupt) => handler w'
    | out => out
    end.

(** The [try] of the main block; the handler only prints to stderr. *)
Definition main (args : Args) : M D unit :=
  try_except_interrupt
    (run_demo (init_demo args) (teardown args) (block_demo args))
    (ret tt).

(** ** More vocabulary *)

(** The registry is left alone. *)
Definition registry_kept (w w' : World D) : Prop :=
  EXTENSIONS w' = EXTENSIONS w.

(** Under registry [E], the registry stays [E] and only extensions outside
    it are dropped. *)
Definition registry_guarded (E : gset string) (w w' : World D) : Prop :=
  EXTENSIONS w = E ->
  EXTENSIONS w' = E /\ emitting (drop_allowed E) w w'.

(** The state after [n] successful bulk copies, if all of them succeed. *)
Fixpoint copies (n : nat) (d : D) : option D :=
  match n with
  | 0 => Some d
  | S n' =>
      match sem CopyAddr d with
      | Some (d', _) => copies n' d'
      | None => None
      end
  end.

End Main.

(** ** A database with injected faults

    The state carries the rule that tells which statement fails after which
    history, and the statements that succeeded so far, last first.  It
    stands for any server on which a given statement fails, for whatever
    reason. *)
Module Faulty.

Record State := mk {
  fails : list Stmt -> Stmt -> bool;
  done : list Stmt
}.

Definition exec (s : Stmt) (d : State) : option (State * list string) :=
  if fails d (done d) s then None else Some (mk (fails d) (s :: done d), []).

Definition uexec (s : Stmt) (d : State) : option (list string) :=
  if fails d (done d) s then None else Some [].

#[global] Instance database : Database State | 100 :=
  {| sem := exec; usem := uexec; can_connect := fun _ _ => true |}.

Definition is_copy (s : Stmt) : bool :=
  match s with CopyAddr => true | _ => false end.

(** The bulk copy fails once [n] copies went through: the disk is full. *)
Definition disk_full_after (n : nat) : State :=
  mk (fun history s =>
        is_copy s && (n <=? length (List.filter is_copy history))%nat) [].

(** Only ANALYZE fails. *)
Definition analyze_fails : State :=
  mk (fun _ s => match s with AnalyzeAddr => true | _ => false end) [].

(** Only the role drop fails. *)
Definition drop_role_fails : State :=
  mk (fun _ s => match s with DropRole => true | _ => false end) [].

End Faulty.


(** [x] is [d] with some privileges of the restricted role revoked; the
    privilege on the database can only go where the revoke can succeed. *)
Definition revoked_from (d x : Pg.State) : Prop :=
  exists pd ps pf,
    x = Pg.set_priv_func pf (Pg.set_priv_schema ps (Pg.set_priv_db pd d))
    /\ (pd = Pg.priv_db d
        \/ (pd = false /\ Pg.role d && Pg.has_postgres d = true)).

(** The demo extensions the registry [E] does not protect. *)
Definition unregistered (E : gset string) : gset string :=
  list_to_set Pg.demo_extensions ∖ E.

(** The server a completed setup leaves. *)
Definition after_setup (E : gset string) (d : Pg.State) : Pg.State :=
  Pg.set_search_path_demo true
    (Pg.set_exts (Pg.exts d ∪ unregistered E) (Pg.set_schema true d)).

(** The server a completed teardown leaves. *)
Definition after_teardown (E : gset string) (d : Pg.State) : Pg.State :=
  Pg.set_exts (Pg.exts d ∖ unregistered E)
    (Pg.set_role false
       (Pg.drop_schema_cascade
          (Pg.set_priv_db (Pg.priv_db d && negb (Pg.role d)) d))).


(** ** Text helpers (lines 197-207, 384-392) *)

(** [s.split(sep)] for a separator of one character: there is always at
    least one part, and two separators in a row give an empty part. *)
Fixpoint str_split (sep : Ascii.ascii) (s : string) : list string :=
  match s with
  | EmptyString => [EmptyString]
  | String c rest =>
      if Ascii.eqb c sep then EmptyString :: str_split sep rest
      else match str_split sep rest with
           | [] => [String c EmptyString]
           | t :: ts => String c t :: ts
           end
  end.

(** [sep.join(parts)]. *)
Fixpoint str_join (sep : string) (parts : list string) : string :=
  match parts with
  | [] => EmptyString
  | [p] => p
  | p :: ps => p +:+ sep +:+ str_join sep ps
  end.

(** [n * s]. *)
Fixpoint str_mul (n : nat) (s : string) : string :=
  match n with
  | 0 => EmptyString
  | S n' => s +:+ str_mul n' s
  end.

(** [s.endswith(suffix)]. *)
Fixpoint endswith (s suffix : string) : bool :=
  if String.eqb s suffix then true
  else match s with
       | EmptyString => false
       | String _ rest => endswith rest suffix
       end.

(** [s[:-1]]. *)
Fixpoint but_last (s : string) : string :=
  match s with
  | EmptyString => EmptyString
  | String c rest =>
      match rest with
      | EmptyString => EmptyString
      | String _ _ => String c (but_last rest)
      end
  end.

(** [l[-k]] for [k >= 1]; [None] is Python's IndexError. *)
Definition index_from_end {A} (k : nat) (l : list A) : option A :=
  if (length l <? k)%nat then None else l !! (length l - k)%nat.

Definition newline : Ascii.ascii := Ascii.ascii_of_nat 10.
Definition space : Ascii.ascii := Ascii.ascii_of_nat 32.

(** [indent], with [os.linesep] as a parameter. *)
Definition indent (linesep : string) (txt : string) (lindent : nat) : string :=
  str_join linesep
    (imap (fun i t => match i with
                      | 0 => t
                      | S _ => str_mul lindent " " +:+ t
                      end)
          (str_split newline txt)).

Definition nonestr (x : option string) : string :=
  match x with
  | None => EmptyString
  | Some s => s
  end.

(** [parse_csz]; [None] is the IndexError of a line with fewer than three
    fields. *)
Definition parse_csz (csz : string) : option (string * string * string) :=
  let parts := str_split space csz in
  match index_from_end 1 parts with
  | None => None
  | Some zipcode =>
      match index_from_end 2 parts with
      | None => None
      | Some state =>
          match index_from_end 3 parts with
          | None => None
          | Some p3 =>
              let parts :=
                if endswith p3 ","
                then <[length parts - 3 := but_last p3]> parts
                else parts in
              let city := str_join " " (take (length parts - 2) parts) in
              Some (city, state, zipcode)
          end
      end
  end.

(** The character [c] occurs in [s]. *)
Fixpoint occurs (c : Ascii.ascii) (s : string) : bool :=
  match s with
  | EmptyString => false
  | String a rest => Ascii.eqb a c || occurs c rest
  end.

(** How often the character [c] occurs in [s]. *)
Fixpoint count_char (c : Ascii.ascii) (s : string) : nat :=
  match s with
  | EmptyString => 0
  | String a rest => (if Ascii.eqb a c then 1 else 0) + count_char c rest
  end.

(** * Reasoning about runs *)

Section Rules.
Context {D : Type} `{Database D}.

#[global] Instance emitting_preorder (P : Event -> Prop) : PreOrder (emitting (D:=D) P).
Proof.
  split.
  - intros w. exists []. by rewrite app_nil_r.
  - intros w1 w2 w3 (e1 & E1 & F1) (e2 & E2 & F2).
    exists (e1 ++ e2). split.
    + by rewrite E2, E1, app_assoc.
    + by apply Forall_app.
Qed.

#[global] Instance uconn_kept_preorder : PreOrder (uconn_kept (D:=D)).
Proof. split; unfold uconn_kept; [intros w | intros w1 w2 w3]; tauto. Qed.

Context (R : World D -> World D -> Prop) `{!PreOrder R}.

Lemma respects_ret {A} (a : A) : respects R (ret a).
Proof. intros w. simpl. reflexivity. Qed.

Lemma respects_raise {A} (e : Exc) : respects R (raise (A:=A) e).
Proof. intros w. simpl. reflexivity. Qed.

Lemma respects_bind {A B} (m : M D A) (k : A -> M D B) :
  respects R m -> (forall a, respects R (k a)) -> respects R (bind m k).
Proof.
  intros Hm Hk w. unfold bind. specialize (Hm w).
  destruct (m w) as [w' [a | e]]; simpl in *; [ | done].
  etransitivity; [exact Hm | apply Hk].
Qed.

Lemma respects_try_except_else {A B} (body : M D A) handler (orelse : A -> M D B) :
  respects R body -> (forall e, respects R (handler e)) ->
  (forall a, respects R (orelse a)) ->
  respects R (try_except_else body handler orelse).
Proof.
  intros Hb Hh Ho w. unfold try_except_else. specialize (Hb w).
  destruct (body w) as [w' [a | e]]; simpl in *.
  - etransitivity; [exact Hb | apply Ho].
  - destruct (is_Exception e); [ | done].
    etransitivity; [exact Hb | apply Hh].
Qed.

Lemma respects_try_except {A} (body : M D A) handler :
  respects R body -> (forall e, respects R (handler e)) ->
  respects R (try_except body handler).
Proof.
  intros Hb Hh. apply respects_try_except_else; [done | done | ].
  intros a. apply respects_ret.
Qed.

Lemma respects_try_finally {A} (body : M D A) fin :
  respects R body -> respects R fin -> respects R (try_finally body fin).
Proof.
  intros Hb Hf w. unfold try_finally. specialize (Hb w).
  destruct (body w) as [w' r]. specialize (Hf w').
  destruct (fin w') as [w'' [[] | e]]; simpl in *; by etransitivity.
Qed.

Lemma respects_for_each {A} (xs : list A) body :
  (forall x, respects R (body x)) -> respects R (for_each xs body).
Proof.
  intros Hb. induction xs as [ | x xs IH]; simpl.
  - apply respects_ret.
  - apply respects_bind; [apply Hb | done].
Qed.

Lemma respects_repeat_n n (body : M D unit) :
  respects R body -> respects R (repeat_n n body).
Proof. intros Hb. by apply respects_for_each. Qed.

Lemma respects_with_connect {A} (body : M D A) :
  respects R (connect Primary) -> respects R (commit Primary) ->
  respects R (rollback Primary) -> respects R body ->
  respects R (with_connect body).
Proof.
  intros Hc Hk Hr Hb. unfold with_connect. apply respects_bind; [done | ].
  intros _ w. specialize (Hb w). destruct (body w) as [w' [a | e]]; simpl in *.
  - etransitivity; [exact Hb | ].
    apply (respects_bind (commit Primary) (fun _ => ret a)); [done | ].
    intros _. apply respects_ret.
  - etransitivity; [exact Hb | ].
    apply (respects_bind (rollback Primary) (fun _ => raise (A:=A) e)); [done | ].
    intros _. apply respects_raise.
Qed.

End Rules.

(** Exposes the fields of a world after the updates made by the calls. *)
Ltac world_simpl :=
  unfold log, set_txn, set_db, set_autocommit_flag, set_uconn, set_EXTENSIONS,
    set_stdin in *;
  cbn [committed working txn autocommit uconn EXTENSIONS stdin trace fst snd] in *.

(** The trace effect of each psycopg2 call. *)
Section PrimitiveFacts.
Context {D : Type} `{Database D}.

Lemma trace_execute c s (w : World D) :
  trace (fst (execute c s w)) = trace w ++ [EExec c s].
Proof. unfold execute. repeat case_match; reflexivity. Qed.

Lemma trace_commit c (w : World D) :
  trace (fst (commit c w)) = trace w ++ [ECommit c].
Proof. unfold commit. repeat case_match; reflexivity. Qed.

Lemma trace_rollback c (w : World D) :
  trace (fst (rollback c w)) = trace w ++ [ERollback c].
Proof. unfold rollback. repeat case_match; reflexivity. Qed.

Lemma trace_prompt (w : World D) :
  trace (fst (prompt w)) = trace w ++ [EPrompt].
Proof. unfold prompt. repeat case_match; reflexivity. Qed.

Lemma emitting_one P (w w' : World D) e :
  trace w' = trace w ++ [e] -> P e -> emitting P w w'.
Proof. intros E HP. exists [e]. split; [done | by constructor]. Qed.

Lemma emitting_none P (w w' : World D) :
  trace w' = trace w -> emitting P w w'.
Proof. intros E. exists []. split; [by rewrite app_nil_r | constructor]. Qed.

Lemma emitting_execute P c s :
  P (EExec c s) -> respects (emitting P) (execute (D:=D) c s).
Proof. intros HP w. eapply emitting_one; [apply trace_execute | done]. Qed.

Lemma emitting_commit P c :
  P (ECommit c) -> respects (emitting P) (commit (D:=D) c).
Proof. intros HP w. eapply emitting_one; [apply trace_commit | done]. Qed.

Lemma emitting_rollback P c :
  P (ERollback c) -> respects (emitting P) (rollback (D:=D) c).
Proof. intros HP w. eapply emitting_one; [apply trace_rollback | done]. Qed.

Lemma emitting_prompt P :
  P EPrompt -> respects (emitting P) (prompt (D:=D)).
Proof. intros HP w. eapply emitting_one; [apply trace_prompt | done]. Qed.

Lemma emitting_close P :
  P (EClose Secondary) -> respects (emitting P) (close_uconn (D:=D)).
Proof. intros HP w. by eapply emitting_one. Qed.

Lemma emitting_connect P c :
  P (EConnect c) -> respects (emitting P) (connect (D:=D) c).
Proof.
  intros HP w. unfold connect. destruct (can_connect c (committed w)).
  - destruct c; by eapply emitting_one.
  - by apply emitting_none.
Qed.

Lemma emitting_set_autocommit P b :
  P (EAutocommit b) -> respects (emitting P) (set_autocommit (D:=D) b).
Proof.
  intros HP w. unfold set_autocommit. destruct (txn w).
  - by eapply emitting_one.
  - by apply emitting_none.
  - by apply emitting_none.
Qed.

Lemma emitting_get_EXTENSIONS P : respects (emitting P) (get_EXTENSIONS (D:=D)).
Proof. intros w. by apply emitting_none. Qed.

Lemma emitting_EXTENSIONS_add P name :
  respects (emitting P) (EXTENSIONS_add (D:=D) name).
Proof. intros w. by apply emitting_none. Qed.

Lemma uconn_kept_execute c s : respects uconn_kept (execute (D:=D) c s).
Proof.
  intros w. unfold uconn_kept, execute. cbn zeta. world_simpl.
  repeat case_match; world_simpl; simplify_eq; try done;
    split; intros; by eexists.
Qed.

Lemma uconn_kept_commit : respects uconn_kept (commit (D:=D) Primary).
Proof. intros w. unfold uconn_kept, commit. cbn zeta. world_simpl. by case_match. Qed.

Lemma uconn_kept_rollback : respects uconn_kept (rollback (D:=D) Primary).
Proof. intros w. done. Qed.

Lemma uconn_kept_prompt : respects uconn_kept (prompt (D:=D)).
Proof.
  intros w. unfold uconn_kept, prompt. cbn zeta. world_simpl. by repeat case_match.
Qed.

Lemma uconn_kept_set_autocommit b : respects uconn_kept (set_autocommit (D:=D) b).
Proof. intros w. unfold uconn_kept, set_autocommit. by case_match. Qed.

End PrimitiveFacts.

Create HintDb script.
#[global] Hint Unfold
  check_preload_library check_existing_extensions validate_demo
  setup_statements setup_demo teardown_revokes drop_unless_registered
  teardown_drops teardown_demo intro_pg_stat_statements demo_pss_table
  create_unpriveleged_user unprivileged_statements demo_unprivileged_user
  demo_pg_stat_statements create_addr_table copy_addr_data load_addr_table
  init_pg_trgm create_addr_btree_index test_addr_btree_index
  create_addr_gin_index test_addr_gin_index intro_pg_trgm demo_pg_trgm
  run_phases run_cleanup run_demo guarded_revoke : script.

(** Walks through the control structure of a script function and leaves the
    side conditions on the events it can emit. *)
Ltac respects_step :=
  lazymatch goal with
  | |- respects _ (bind _ _) => apply respects_bind; [apply _ | | intros ? ]
  | |- respects _ (ret _) => apply respects_ret; apply _
  | |- respects _ (raise _) => apply respects_raise; apply _
  | |- respects _ (try_except_else _ _ _) =>
      apply respects_try_except_else; [apply _ | | intros ? | intros ? ]
  | |- respects _ (try_except _ _) =>
      apply respects_try_except; [apply _ | | intros ? ]
  | |- respects _ (try_finally _ _) => apply respects_try_finally; [apply _ | | ]
  | |- respects _ (for_each _ _) => apply respects_for_each; [apply _ | intros ? ]
  | |- respects _ (repeat_n _ _) => apply respects_repeat_n; [apply _ | ]
  | |- respects _ (with_connect _) =>
      apply respects_with_connect; [apply _ | | | | ]
  | |- respects _ (if ?b then _ else _) => destruct b
  | |- respects _ (match ?x with _ => _ end) => destruct x
  | |- respects (emitting _) (execute _ _) => apply emitting_execute
  | |- respects (emitting _) (commit _) => apply emitting_commit
  | |- respects (emitting _) (rollback _) => apply emitting_rollback
  | |- respects (emitting _) prompt => apply emitting_prompt
  | |- respects (emitting _) close_uconn => apply emitting_close
  | |- respects (emitting _) (connect _) => apply emitting_connect
  | |- respects (emitting _) (set_autocommit _) => apply emitting_set_autocommit
  | |- respects (emitting _) get_EXTENSIONS => apply emitting_get_EXTENSIONS
  | |- respects (emitting _) (EXTENSIONS_add _) => apply emitting_EXTENSIONS_add
  | |- respects uconn_kept (execute _ _) => apply uconn_kept_execute
  | |- respects uconn_kept (commit Primary) => apply uconn_kept_commit
  | |- respects uconn_kept (rollback Primary) => apply uconn_kept_rollback
  | |- respects uconn_kept prompt => apply uconn_kept_prompt
  | |- respects uconn_kept (set_autocommit _) => apply uconn_kept_set_autocommit
  | |- respects _ _ => progress autounfold with script
  end.

Ltac respects_walk := repeat respects_step.

Section Emissions.
Context {D : Type} `{Database D}.

Lemma teardown_emits_harmless : respects (emitting harmless) (teardown_demo (D:=D)).
Proof. respects_walk; done. Qed.


Lemma phases_emit_no_ns_drop init block :
  respects (emitting (fun e => is_ns_drop e = false)) (run_phases (D:=D) init block).
Proof. respects_walk; done. Qed.

End Emissions.

Section Teardown.
Context {D : Type} `{Database D}.

(** What one guarded revoke does: it never raises; when the statement
    fails, the handler rolls the whole transaction back. *)
Lemma guarded_revoke_run s (w : World D) :
  exists w', guarded_revoke s w = (w', Ok tt)
    /\ trace w' = trace w ++ EExec Primary s :: rollback_if_raised (snd (execute Primary s w))
    /\ (is_Raise (snd (execute Primary s w)) = true ->
        working w' = committed w' /\ txn w' = Idle)
    /\ (autocommit w' = autocommit w)
    /\ (autocommit w = false -> committed w' = committed w /\ txn w' <> Aborted)
    /\ EXTENSIONS w' = EXTENSIONS w.
Proof.
  unfold guarded_revoke, try_except, try_except_else, bind, execute, rollback, ret, rollback_if_raised.
  cbn.
  repeat (case_match; cbn in *; simplify_eq); eexists; (split; [reflexivity | ]); cbn; rewrite <- ?app_assoc; cbn; repeat split; try done.
Qed.

Lemma bind_ok {A B} (m : M D A) (k : A -> M D B) w w' a :
  m w = (w', Ok a) -> bind m k w = k a w'.
Proof. intros E. unfold bind. by rewrite E. Qed.

Lemma teardown_revokes_unfold :
  teardown_revokes (D:=D) =
  (guarded_revoke RevokeFunction >> guarded_revoke RevokeSchema >>
   guarded_revoke RevokeDatabase).
Proof. reflexivity. Qed.

Lemma first_event {A B} (m : M D A) (k : A -> M D B) e w :
  trace (fst (m w)) = trace w ++ [e] ->
  (forall a, respects (emitting (fun _ => True)) (k a)) ->
  exists rest, trace (fst (bind m k w)) = trace w ++ e :: rest.
Proof.
  intros E Hk. unfold bind. destruct (m w) as [w' [a | x]]; simpl in *.
  - destruct (Hk a w') as (evs & Ek & _). exists evs.
    by rewrite Ek, E, <- app_assoc.
  - by exists [].
Qed.

(** The three revokes run one after the other whatever fails, and the
    namespace drop follows them. *)
Lemma teardown_revokes_run (w : World D) :
  let w1 := fst (guarded_revoke RevokeFunction w) in
  let w2 := fst (guarded_revoke RevokeSchema w1) in
  let w3 := fst (guarded_revoke RevokeDatabase w2) in
  teardown_revokes w = (w3, Ok tt)
  /\ trace w1 = trace w ++ EExec Primary RevokeFunction
        :: rollback_if_raised (snd (execute Primary RevokeFunction w))
  /\ trace w2 = trace w1 ++ EExec Primary RevokeSchema
        :: rollback_if_raised (snd (execute Primary RevokeSchema w1))
  /\ trace w3 = trace w2 ++ EExec Primary RevokeDatabase
        :: rollback_if_raised (snd (execute Primary RevokeDatabase w2))
  /\ teardown_demo w = teardown_drops w3
  /\ exists rest,
       trace (fst (teardown_demo w)) = trace w3 ++ EExec Primary DropSchema :: rest.
Proof.
  intros w1 w2 w3.
  destruct (guarded_revoke_run RevokeFunction w) as (v1 & E1 & T1 & _).
  assert (v1 = w1) as -> by (subst w1; by rewrite E1).
  destruct (guarded_revoke_run RevokeSchema w1) as (v2 & E2 & T2 & _).
  assert (v2 = w2) as -> by (subst w2; by rewrite E2).
  destruct (guarded_revoke_run RevokeDatabase w2) as (v3 & E3 & T3 & _).
  assert (v3 = w3) as -> by (subst w3; by rewrite E3).
  assert (teardown_revokes w = (w3, Ok tt)) as Er.
  { rewrite teardown_revokes_unfold.
    rewrite (bind_ok _ _ _ _ _ E1), (bind_ok _ _ _ _ _ E2). exact E3. }
  assert (teardown_demo w = teardown_drops w3) as Ed.
  { unfold teardown_demo. by rewrite (bind_ok _ _ _ _ _ Er). }
  repeat split; try done.
  rewrite Ed. unfold teardown_drops. apply first_event.
  - apply trace_execute.
  - intros _. respects_walk; done.
Qed.

(** C6: each of the three revoke statements of teardown is guarded on its
    own.  [teardown_revokes] never raises; every revoke is sent, in order,
    whether or not the ones before it failed (a failed one is followed by
    the handler's rollback and nothing else); and the rest of teardown runs
    on the world the revokes leave, starting with the namespace drop. *)
Theorem revokes_individually_guarded (w : World D) :
  let w1 := fst (guarded_revoke RevokeFunction w) in
  let w2 := fst (guarded_revoke RevokeSchema w1) in
  let w3 := fst (guarded_revoke RevokeDatabase w2) in
  teardown_revokes w = (w3, Ok tt)
  /\ trace w1 = trace w ++ EExec Primary RevokeFunction
        :: rollback_if_raised (snd (execute Primary RevokeFunction w))
  /\ trace w2 = trace w1 ++ EExec Primary RevokeSchema
        :: rollback_if_raised (snd (execute Primary RevokeSchema w1))
  /\ trace w3 = trace w2 ++ EExec Primary RevokeDatabase
        :: rollback_if_raised (snd (execute Primary RevokeDatabase w2))
  /\ teardown_demo w = teardown_drops w3
  /\ exists rest,
       trace (fst (teardown_demo w)) = trace w3 ++ EExec Primary DropSchema :: rest.
Proof. exact (teardown_revokes_run w). Qed.

(** C10: the guarded revokes are not independent at the level of the
    database state.  Outside autocommit, no commit is issued while the three
    revokes run and the durable state is the one teardown started with;
    when the second or the third revoke fails, its handler rolls the whole
    transaction back, so the session is back to the durable state and what
    the earlier revokes had changed is gone. *)
Theorem revoke_failure_reverts_earlier_revokes (w : World D) :
  autocommit w = false ->
  let w1 := fst (guarded_revoke RevokeFunction w) in
  let w2 := fst (guarded_revoke RevokeSchema w1) in
  let w3 := fst (guarded_revoke RevokeDatabase w2) in
  fst (teardown_revokes w) = w3
  /\ emitting (fun e => is_commit e = false) w w3
  /\ committed w3 = committed w
  /\ (is_Raise (snd (execute Primary RevokeSchema w1)) = true ->
      working w2 = committed w)
  /\ (is_Raise (snd (execute Primary RevokeDatabase w2)) = true ->
      working w3 = committed w).
Proof.
  intros Ha w1 w2 w3.
  destruct (teardown_revokes_run w) as (Er & _).
  destruct (guarded_revoke_run RevokeFunction w) as (v1 & E1 & _ & _ & A1 & C1 & _).
  assert (v1 = w1) as -> by (subst w1; by rewrite E1).
  destruct (guarded_revoke_run RevokeSchema w1) as (v2 & E2 & _ & R2 & A2 & C2 & _).
  assert (v2 = w2) as -> by (subst w2; by rewrite E2).
  destruct (guarded_revoke_run RevokeDatabase w2) as (v3 & E3 & _ & R3 & A3 & C3 & _).
  assert (v3 = w3) as -> by (subst w3; by rewrite E3).
  rewrite Ha in A1. rewrite A1 in A2. rewrite A2 in A3.
  destruct (C1 Ha) as [K1 _]. destruct (C2 A1) as [K2 _]. destruct (C3 A2) as [K3 _].
  split; [by rewrite Er | ]. split.
  { assert (respects (emitting (fun e => is_commit e = false)) (teardown_revokes (D:=D))) as Hr
      by (respects_walk; done).
    specialize (Hr w). by rewrite Er in Hr. }
  split; [congruence | ]. split.
  - intros F. destruct (R2 F) as [-> _]. congruence.
  - intros F. destruct (R3 F) as [-> _]. congruence.
Qed.

(** C3: setup is atomic.  When a statement of setup raises, [setup_demo]
    re-raises that same exception after one rollback, with no commit, and
    both the durable state and the session's view are the durable state
    setup started from, so neither the namespace, nor an extension, nor the
    search path of this run persists.  When no statement raises, the phase
    ends with its only commit.  Either way only setup statements were sent
    and no transaction is left open. *)
Theorem setup_demo_atomic (w : World D) :
  autocommit w = false ->
  match setup_demo w with
  | (w', Ok _) =>
      (exists w1, setup_statements w = (w1, Ok tt))
      /\ exists stmts,
           trace w' = trace w ++ stmts ++ [ECommit Primary]
           /\ Forall is_setup_exec stmts
           /\ txn w' = Idle /\ committed w' = working w'
  | (w', Raise e) =>
      (exists w1, setup_statements w = (w1, Raise e))
      /\ exists stmts,
           trace w' = trace w ++ stmts ++ [ERollback Primary]
           /\ Forall is_setup_exec stmts
           /\ txn w' = Idle
           /\ committed w' = committed w /\ working w' = committed w
  end.
Proof.
  intros Ha.
  unfold setup_demo, setup_statements, try_except_else, bind, execute,
    get_EXTENSIONS, commit, rollback, ret, raise.
  repeat (world_simpl; rewrite ?Ha; case_match; simplify_eq);
    world_simpl;
    (split; [by eexists | ]);
    rewrite <- ?app_assoc; cbn [app];
    lazymatch goal with
    | |- exists stmts, trace ?w ++ ?l = trace ?w ++ stmts ++ [?e] /\ _ =>
        exists (removelast l)
    end; cbn; (split; [reflexivity | ]);
    (split; [repeat constructor | done]).
Qed.

End Teardown.

Section Run.
Context {D : Type} `{Database D}.

Lemma count_app p (a b : list Event) : count p (a ++ b) = count p a + count p b.
Proof. unfold count. by rewrite List.filter_app, length_app. Qed.

Lemma count_none p (l : list Event) :
  Forall (fun e => p e = false) l -> count p l = 0.
Proof.
  unfold count. induction 1 as [ | e l He _ IH]; simpl; [done | ].
  by rewrite He.
Qed.

(** Teardown sends the namespace drop exactly once, whatever fails. *)
Lemma teardown_one_ns_drop (w : World D) :
  exists td, trace (fst (teardown_demo w)) = trace w ++ td
             /\ count is_ns_drop td = 1 /\ Forall harmless td.
Proof.
  destruct (teardown_revokes_run w) as (Er & _ & _ & _ & Ed & _).
  set (w3 := fst (guarded_revoke RevokeDatabase _)) in *. clearbody w3.
  assert (respects (emitting (fun e => is_ns_drop e = false /\ harmless e))
            (teardown_revokes (D:=D))) as Hr by (respects_walk; done).
  destruct (Hr w) as (evr & Tr & Fr). rewrite Er in Tr. simpl in Tr.
  rewrite Ed. unfold teardown_drops, bind at 1.
  pose proof (trace_execute Primary DropSchema w3) as Tx.
  destruct (execute Primary DropSchema w3) as [w4 [rows | e]]; simpl in Tx.
  - match goal with |- context [fst (?k w4)] => 
      assert (respects (emitting (fun e => is_ns_drop e = false /\ harmless e)) k) as Hk
        by (respects_walk; done) end.
    destruct (Hk w4) as (evd & Td & Fd).
    exists (evr ++ EExec Primary DropSchema :: evd). split; [ | split].
    + rewrite Td, Tx, Tr. by rewrite <- !app_assoc.
    + rewrite count_app. rewrite (count_none _ evr).
      * change (EExec Primary DropSchema :: evd) with ([EExec Primary DropSchema] ++ evd).
        rewrite count_app, (count_none _ evd); [done | ].
        eapply Forall_impl; [exact Fd | by intros ? []].
      * eapply Forall_impl; [exact Fr | by intros ? []].
    + apply Forall_app. split.
      * eapply Forall_impl; [exact Fr | by intros ? []].
      * constructor; [done | ]. eapply Forall_impl; [exact Fd | by intros ? []].
  - exists (evr ++ [EExec Primary DropSchema]). split; [ | split].
    + simpl. rewrite Tx, Tr. by rewrite <- !app_assoc.
    + rewrite count_app, (count_none _ evr); [done | ].
      eapply Forall_impl; [exact Fr | by intros ? []].
    + apply Forall_app. split.
      * eapply Forall_impl; [exact Fr | by intros ? []].
      * by repeat constructor.
Qed.

Lemma connect_primary_start d keys :
  can_connect Primary d = true ->
  connect Primary (start d keys)
  = (mkWorld d d Idle false None ∅ keys [EConnect Primary], Ok tt).
Proof. intros Hc. unfold connect, start. cbn. by rewrite Hc. Qed.

Lemma commit_primary_run (w : World D) :
  commit Primary w = (fst (commit Primary w), Ok tt).
Proof. unfold commit. by repeat case_match. Qed.

Lemma try_finally_eq {A} (body : M D A) fin w w1 r :
  body w = (w1, r) ->
  try_finally body fin w
  = match fin w1 with
    | (w2, Ok _) => (w2, r)
    | (w2, Raise e) => (w2, Raise e)
    end.
Proof. intros E. unfold try_finally. by rewrite E. Qed.

Lemma with_connect_eq {A} (body : M D A) d keys w1 r :
  can_connect Primary d = true ->
  body (mkWorld d d Idle false None ∅ keys [EConnect Primary]) = (w1, r) ->
  with_connect body (start d keys)
  = match r with
    | Ok a => (fst (commit Primary w1), Ok a)
    | Raise e => (fst (rollback Primary w1), Raise e)
    end.
Proof.
  intros Hc E. unfold with_connect.
  rewrite (bind_ok _ _ _ _ _ (connect_primary_start d keys Hc)).
  rewrite E. destruct r as [a | e]; [ | done].
  unfold bind. by rewrite commit_primary_run.
Qed.

Lemma run_demo_eq init teardown block d keys (w1 w2 : World D) r1 r2 :
  can_connect Primary d = true ->
  run_phases init block (mkWorld d d Idle false None ∅ keys [EConnect Primary])
  = (w1, r1) ->
  run_cleanup teardown block w1 = (w2, r2) ->
  run_demo init teardown block (start d keys)
  = match r2, r1 with
    | Raise e2, _ => (fst (rollback Primary w2), Raise e2)
    | Ok _, Raise e1 => (fst (rollback Primary w2), Raise e1)
    | Ok _, Ok a => (fst (commit Primary w2), Ok a)
    end.
Proof.
  intros Hc Hp Ht. unfold run_demo.
  pose proof (try_finally_eq _ (run_cleanup teardown block) _ _ _ Hp) as Ef.
  rewrite Ht in Ef.
  destruct r2 as [[] | e2], r1 as [[] | e1];
    by rewrite (with_connect_eq _ _ _ _ _ Hc Ef).
Qed.

Lemma run_cleanup_teardown block (w : World D) :
  run_cleanup true block w = teardown_demo w.
Proof. reflexivity. Qed.

Lemma run_cleanup_skip (w : World D) : run_cleanup false false w = (w, Ok tt).
Proof. reflexivity. Qed.

(** C4: with [teardown = true], an exception raised inside the [try] of
    [run_demo] (by a demo phase in particular) does not keep teardown from
    running.  The namespace drop is sent exactly once, after the failure and
    before [run_demo] returns, and [run_demo] then raises: the exception of
    the failed phase when teardown completes, the one teardown raised
    otherwise. *)
Theorem teardown_runs_after_failure init block d keys (w1 : World D) e :
  can_connect Primary d = true ->
  run_phases init block (fst (connect Primary (start d keys))) = (w1, Raise e) ->
  let out := run_demo init true block (start d keys) in
  (exists td, trace (fst out) = trace w1 ++ td ++ [ERollback Primary]
              /\ count is_ns_drop td = 1)
  /\ count is_ns_drop (trace (fst out)) = 1
  /\ exists e', snd out = Raise e'
                /\ (snd (teardown_demo w1) = Ok tt -> e' = e).
Proof.
  intros Hc Hp.
  pose proof (phases_emit_no_ns_drop init block
                (fst (connect Primary (start d keys)))) as (evp & Tp & Fp).
  rewrite Hp in Tp.
  rewrite (connect_primary_start d keys Hc) in Hp, Tp. cbn [fst snd trace] in Hp, Tp.
  destruct (teardown_one_ns_drop w1) as (td & Tt & Ct & _).
  destruct (teardown_demo w1) as [w2 r] eqn:Et.
  rewrite <- (run_cleanup_teardown block) in Et.
  rewrite (run_demo_eq _ _ _ _ _ _ _ _ _ Hc Hp Et).
  cbn [fst snd] in Tt.
  assert (forall e', trace (fst (fst (rollback Primary w2), Raise (A:=unit) e'))
                     = trace w1 ++ td ++ [ERollback Primary]) as Tf.
  { intros e'. cbn [fst]. by rewrite trace_rollback, Tt, <- app_assoc. }
  destruct r as [[] | e2]; cbn zeta; rewrite Tf.
  all: split; [by exists td | split];
    [ rewrite Tp, !count_app, Ct, (count_none _ evp) by done; done | ].
  - exists e. by split.
  - exists e2. split; [done | ]. intros ?. discriminate.
Qed.

Lemma trace_check_preload_library lib (w : World D) :
  trace (fst (check_preload_library lib w)) = trace w ++ [EExec Primary SelPreload].
Proof.
  unfold check_preload_library, bind.
  pose proof (trace_execute Primary SelPreload w) as T.
  destruct (execute Primary SelPreload w) as [w' [rows | e]]; [ | done].
  cbn [fst] in T. by repeat case_match.
Qed.

Lemma run_phases_inactive init (w w1 : World D) :
  check_preload_library "pg_stat_statements" w = (w1, Ok false) ->
  run_phases init false w = (w1, Ok tt).
Proof.
  intros E. unfold run_phases, validate_demo. cbn [negb].
  unfold bind at 1 2. by rewrite E.
Qed.

(** C1 (amended): when [check_preload_library] reports the library
    inactive and teardown-only was not requested, the run sends no setup, no
    demo and no object-creation statement; teardown runs exactly when the
    [teardown] flag is set, which is the default. *)
Theorem validation_gate init teardown d keys :
  can_connect Primary d = true ->
  snd (check_preload_library "pg_stat_statements"
         (fst (connect Primary (start d keys)))) = Ok false ->
  let w := fst (run_demo init teardown false (start (D:=D) d keys)) in
  Forall harmless (trace w)
  /\ count is_ns_drop (trace w) = (if teardown then 1 else 0).
Proof.
  intros Hc Hv.
  rewrite (connect_primary_start d keys Hc) in Hv. cbn [fst] in Hv.
  pose proof (trace_check_preload_library "pg_stat_statements"
                (mkWorld d d Idle false None ∅ keys [EConnect Primary])) as Tv.
  destruct (check_preload_library _ _) as [w1 r] eqn:Ev.
  cbn [fst snd trace] in Hv, Tv. subst r.
  pose proof (run_phases_inactive init _ _ Ev) as Ep.
  destruct teardown.
  - destruct (teardown_one_ns_drop w1) as (td & Tt & Ct & Ft).
    destruct (teardown_demo w1) as [w2 r2] eqn:Et.
    rewrite <- (run_cleanup_teardown false) in Et.
    rewrite (run_demo_eq _ _ _ _ _ _ _ _ _ Hc Ep Et).
    cbn [fst] in Tt.
    destruct r2 as [[] | e2]; cbn zeta; cbn [fst];
      rewrite ?trace_commit, ?trace_rollback, Tt, Tv.
    all: split;
      [ repeat (apply Forall_app; split); try done; by repeat constructor
      | by rewrite !count_app, Ct ].
  - rewrite (run_demo_eq _ _ _ _ _ _ _ _ _ Hc Ep (run_cleanup_skip w1)).
    cbn zeta. cbn [fst]. rewrite trace_commit, Tv.
    split; [by repeat constructor | done].
Qed.

End Run.

Section Boundaries.
Context {D : Type} `{Database D}.

Lemma ends_idle_commit : ends_idle (commit (D:=D) Primary).
Proof. intros w. unfold commit. cbn zeta. world_simpl. by destruct (txn w). Qed.

Lemma ends_idle_rollback : ends_idle (rollback (D:=D) Primary).
Proof. intros w. done. Qed.

Lemma keeps_txn_prompt : keeps_txn (prompt (D:=D)).
Proof. intros w. unfold prompt. cbn zeta. world_simpl. by repeat case_match. Qed.

Lemma ends_idle_bind_r {A B} (m : M D A) (k : A -> M D B) :
  (forall a, ends_idle (k a)) -> ends_idle (bind m k).
Proof.
  intros Hk w. unfold bind. destruct (m w) as [w' [a | e]]; [ | done].
  apply Hk.
Qed.

Lemma ends_idle_bind_l {A B} (m : M D A) (k : A -> M D B) :
  ends_idle m -> (forall a, keeps_txn (k a)) -> ends_idle (bind m k).
Proof.
  intros Hm Hk w. unfold bind. specialize (Hm w).
  destruct (m w) as [w' [a | e]]; [ | done].
  specialize (Hk a w'). destruct (k a w') as [w'' [b | e]]; [ | done].
  simpl in Hk. congruence.
Qed.

Lemma ends_idle_test_addr_gin_index : ends_idle (test_addr_gin_index (D:=D)).
Proof.
  unfold test_addr_gin_index.
  do 3 (apply ends_idle_bind_r; intros ?).
  apply ends_idle_bind_l; [apply ends_idle_rollback | intros ?; apply keeps_txn_prompt].
Qed.

Lemma ends_idle_demo_pg_trgm init : ends_idle (demo_pg_trgm (D:=D) init).
Proof.
  unfold demo_pg_trgm.
  do 7 (apply ends_idle_bind_r; intros ?).
  apply ends_idle_bind_l;
    [apply ends_idle_test_addr_gin_index | intros ?; apply keeps_txn_prompt].
Qed.

Lemma ends_idle_demo_pg_stat_statements init :
  ends_idle (demo_pg_stat_statements (D:=D) init).
Proof.
  unfold demo_pg_stat_statements, demo_unprivileged_user.
  do 6 (apply ends_idle_bind_r; intros ?). apply ends_idle_rollback.
Qed.

Lemma ends_idle_teardown_demo : ends_idle (teardown_demo (D:=D)).
Proof.
  unfold teardown_demo, teardown_drops.
  do 6 (apply ends_idle_bind_r; intros ?). apply ends_idle_commit.
Qed.

Lemma ends_idle_check_existing_extensions :
  ends_idle (check_existing_extensions (D:=D)).
Proof.
  unfold check_existing_extensions.
  do 2 (apply ends_idle_bind_r; intros ?). apply ends_idle_rollback.
Qed.

Lemma setup_demo_idle (w : World D) : txn (fst (setup_demo w)) = Idle.
Proof.
  unfold setup_demo, setup_statements, try_except_else, bind, execute,
    get_EXTENSIONS, commit, rollback, ret, raise.
  repeat (world_simpl; case_match; simplify_eq); world_simpl; done.
Qed.

Lemma txn_commit (w : World D) : txn (fst (commit Primary w)) = Idle.
Proof. unfold commit. cbn zeta. world_simpl. by destruct (txn w). Qed.

Lemma txn_rollback (w : World D) : txn (fst (rollback Primary w)) = Idle.
Proof. reflexivity. Qed.

Lemma with_connect_idle {A} (body : M D A) d keys :
  txn (fst (with_connect body (start d keys))) = Idle.
Proof.
  destruct (can_connect Primary d) eqn:Hc.
  - destruct (body (mkWorld d d Idle false None ∅ keys [EConnect Primary]))
      as [w1 r] eqn:Eb.
    rewrite (with_connect_eq _ _ _ _ _ Hc Eb).
    destruct r; cbn [fst]; [apply txn_commit | apply txn_rollback].
  - unfold with_connect, bind, connect. cbn [start committed]. by rewrite Hc.
Qed.

Lemma validate_demo_inactive (w w' : World D) :
  validate_demo w = (w', Ok false) ->
  trace w' = trace w ++ [EExec Primary SelPreload].
Proof.
  unfold validate_demo. unfold bind at 1.
  pose proof (trace_check_preload_library "pg_stat_statements" w) as Tp.
  destruct (check_preload_library "pg_stat_statements" w) as [w1 [[ | ] | e]];
    cbn [fst] in Tp.
  - unfold bind. destruct (check_existing_extensions w1) as [w2 [[] | e]]; done.
  - unfold ret. by intros [= <-].
  - done.
Qed.

Lemma init_pg_trgm_handler (w w1 : World D) e :
  (create_addr_table >> load_addr_table) w = (w1, Raise e) ->
  is_Exception e = true ->
  init_pg_trgm w = (fst (rollback Primary w1), Raise e).
Proof.
  intros Hb He. unfold init_pg_trgm, try_except_else. rewrite Hb, He.
  reflexivity.
Qed.

(** C7 (amended): validation that accepts the server ends with a rollback,
    and one that reports the library inactive has sent its query and
    nothing else, no commit and no rollback; setup ends with a commit or a
    rollback on every path; each demo phase and teardown end with a commit
    or a rollback when they return normally; when creating or loading the
    table fails, [init_pg_trgm] rolls back before it re-raises; and when
    [run_demo] hands control back, on any path, the connection's context
    manager has committed or rolled back, so no transaction is open. *)
Theorem phases_resolve_transaction (w : World D) init teardown block d keys :
  match validate_demo w with
  | (w', Ok true) => txn w' = Idle
  | (w', Ok false) => trace w' = trace w ++ [EExec Primary SelPreload]
  | _ => True
  end
  /\ txn (fst (setup_demo w)) = Idle
  /\ ends_idle (demo_pg_trgm (D:=D) init)
  /\ ends_idle (demo_pg_stat_statements (D:=D) init)
  /\ ends_idle (teardown_demo (D:=D))
  /\ (forall w1 e,
        (create_addr_table >> load_addr_table) w = (w1, Raise e) ->
        is_Exception e = true ->
        exists w', init_pg_trgm w = (w', Raise e)
                   /\ trace w' = trace w1 ++ [ERollback Primary]
                   /\ txn w' = Idle)
  /\ txn (fst (run_demo init teardown block (start d keys))) = Idle.
Proof.
  split; [ | split; [apply setup_demo_idle | ] ].
  - destruct (validate_demo w) as [w' [[ | ] | e]] eqn:Ev; [ | | done].
    + revert Ev. unfold validate_demo, bind.
      destruct (check_preload_library _ w) as [w1 [[ | ] | e]]; try done.
      pose proof (ends_idle_check_existing_extensions w1) as Hx.
      destruct (check_existing_extensions w1) as [w2 [[] | e]]; [ | done].
      unfold ret. by intros [= <-].
    + by apply validate_demo_inactive.
  - split; [apply ends_idle_demo_pg_trgm | ].
    split; [apply ends_idle_demo_pg_stat_statements | ].
    split; [apply ends_idle_teardown_demo | ].
    split; [ | apply with_connect_idle].
    intros w1 e Hb He. exists (fst (rollback Primary w1)).
    split; [by apply init_pg_trgm_handler | ].
    split; [apply trace_rollback | apply txn_rollback].
Qed.

End Boundaries.

Section Secondary.
Context {D : Type} `{Database D}.

Lemma bind_assoc {A B C} (m : M D A) (f : A -> M D B) (g : B -> M D C) w :
  bind (bind m f) g w = bind m (fun a => bind (f a) g) w.
Proof. unfold bind. by destruct (m w) as [w' [a | e]]. Qed.

(** Everything [demo_unprivileged_user] does before it connects. *)
Lemma unprivileged_prefix (init : bool) (w : World D) :
  uconn w = None ->
  exists evs,
    let w0 := fst ((prompt >> (if init then create_unpriveleged_user else ret tt)) w) in
    uconn w0 = None /\ trace w0 = trace w ++ evs
    /\ Forall (fun e => e <> EConnect Secondary) evs.
Proof.
  intros Hu. cbn zeta.
  set (pre := (prompt >> (if init then create_unpriveleged_user else ret tt))).
  assert (respects uconn_kept pre) as Hk by (subst pre; respects_walk).
  assert (respects (emitting (fun e => e <> EConnect Secondary)) pre) as He
    by (subst pre; respects_walk; done).
  destruct (He w) as (evs & T & F). exists evs. split; [ | done].
  specialize (Hk w). unfold uconn_kept in Hk. rewrite Hu in Hk.
  destruct (uconn (fst (pre w))); [ | done].
  destruct Hk as [Hk _]. by destruct Hk.
Qed.

(** The [finally] block on an open restricted session. *)
Lemma release_run (w : World D) :
  is_Some (uconn w) ->
  exists w', (rollback Secondary >> close_uconn) w = (w', Ok tt)
             /\ uconn w' = None
             /\ trace w' = trace w ++ [ERollback Secondary; EClose Secondary].
Proof.
  intros [t Ht]. unfold bind, rollback, close_uconn. cbn zeta. world_simpl.
  rewrite Ht. world_simpl. eexists. split; [reflexivity | ].
  world_simpl. by rewrite <- app_assoc.
Qed.

(** C8: the restricted session of [demo_unprivileged_user] is released on
    every path.  No such session exists when the function is left; and once
    one was opened, its rollback and its close are the last events before
    control is back on the primary session: they are followed by the primary
    rollback of line 358 when the statements returned, and by nothing when
    one of them raised. *)
Theorem secondary_session_released (init : bool) (w : World D) :
  uconn w = None ->
  uconn (fst (demo_unprivileged_user init w)) = None
  /\ forall evs,
       trace (fst (demo_unprivileged_user init w)) = trace w ++ evs ->
       In (EConnect Secondary) evs ->
       exists used,
         evs = used ++ [ERollback Secondary; EClose Secondary]
                   ++ (if is_Raise (snd (demo_unprivileged_user init w))
                       then [] else [ERollback Primary]).
Proof.
  intros Hu.
  destruct (unprivileged_prefix init w Hu) as (ev0 & U0 & T0 & F0). cbn zeta in *.
  assert (forall evs, trace w ++ ev0 = trace w ++ evs ->
                      ~ In (EConnect Secondary) evs) as Hnot.
  { intros evs E Hin. apply app_inv_head in E. subst evs.
    apply list_elem_of_In in Hin. rewrite Forall_forall in F0.
    by apply F0 in Hin. }
  assert (demo_unprivileged_user init w
          = bind (prompt >> (if init then create_unpriveleged_user else ret tt))
              (fun _ => connect Secondary >>
                 try_finally unprivileged_statements
                   (rollback Secondary >> close_uconn) >>
                 rollback Primary) w) as Eq.
  { unfold demo_unprivileged_user. by rewrite bind_assoc. }
  unfold bind at 1 in Eq.
  destruct ((prompt >> (if init then create_unpriveleged_user else ret tt)) w)
    as [w0 [[] | e0]] eqn:E0; cbn [fst snd] in *.
  2: { rewrite Eq. cbn [fst snd]. split; [done | ].
       intros evs E Hin. rewrite T0 in E. by apply Hnot in E. }
  unfold bind at 1 in Eq. unfold connect in Eq.
  destruct (can_connect Secondary (committed w0)).
  2: { rewrite Eq. cbn [fst snd]. split; [done | ].
       intros evs E Hin. rewrite T0 in E. by apply Hnot in E. }
  set (wc := log (EConnect Secondary) (set_uconn (Some Idle) w0)) in Eq.
  assert (respects uconn_kept (unprivileged_statements (D:=D))) as Hk
    by respects_walk.
  assert (respects (emitting (fun _ => True)) (unprivileged_statements (D:=D)))
    as He by (respects_walk; done).
  destruct (He wc) as (evb & Tb & _). specialize (Hk wc).
  destruct (unprivileged_statements wc) as [wb rb] eqn:Eb. cbn [fst] in *.
  assert (is_Some (uconn wb)) as Hopen by (apply Hk; by eexists).
  destruct (release_run wb Hopen) as (wf & Ef & Uf & Tf).
  pose proof (try_finally_eq _ (rollback Secondary >> close_uconn) _ _ _ Eb) as Et.
  rewrite Ef in Et. unfold bind at 1 in Eq. rewrite Et in Eq.
  assert (trace wf = trace w ++ (ev0 ++ [EConnect Secondary] ++ evb)
                       ++ [ERollback Secondary; EClose Secondary]) as Tw.
  { rewrite Tf, Tb. subst wc. world_simpl. rewrite T0. by rewrite <- !app_assoc. }
  rewrite Eq. clear Eq.
  destruct rb as [[] | e]; cbn [fst snd is_Raise rollback]; world_simpl.
  - split; [done | ]. intros evs E _. rewrite Tw in E.
    rewrite <- !app_assoc in E. apply app_inv_head in E. subst evs.
    exists (ev0 ++ [EConnect Secondary] ++ evb). by rewrite <- !app_assoc.
  - split; [done | ]. intros evs E _. rewrite Tw in E.
    rewrite <- !app_assoc in E. apply app_inv_head in E. subst evs.
    exists (ev0 ++ [EConnect Secondary] ++ evb).
    by rewrite <- !app_assoc.
Qed.

End Secondary.

Section Registry.
Context {D : Type} `{Database D}.

Lemma register_all rows (w : World D) :
  exists E, for_each rows EXTENSIONS_add w = (set_EXTENSIONS E w, Ok tt)
            /\ forall name, name ∈ E <-> name ∈ rows \/ name ∈ EXTENSIONS w.
Proof.
  revert w. induction rows as [ | x rows IH]; intros w.
  - exists (EXTENSIONS w). split; [by destruct w | ].
    intros name. split; [by right | ].
    intros [Hn | Hn]; [by apply elem_of_nil in Hn | done].
  - cbn [for_each]. unfold bind, EXTENSIONS_add at 1.
    destruct (IH (set_EXTENSIONS ({[x]} ∪ EXTENSIONS w) w)) as (E & -> & HE).
    exists E. split; [done | ]. intros name. rewrite HE. world_simpl.
    rewrite elem_of_union, elem_of_singleton, elem_of_cons. tauto.
Qed.

End Registry.

Section Outcomes.
Context {D : Type} `{Database D}.

Lemma execute_ok s (w w' : World D) rows :
  execute Primary s w = (w', Ok rows) ->
  sem s (working w) = Some (working w', rows)
  /\ settled w' /\ EXTENSIONS w' = EXTENSIONS w
  /\ trace w' = trace w ++ [EExec Primary s].
Proof.
  unfold execute, settled. cbn zeta. world_simpl.
  repeat case_match; intros; simplify_eq; world_simpl; auto.
Qed.

Lemma commit_settled (w : World D) :
  settled w ->
  exists w', commit Primary w = (w', Ok tt)
    /\ working w' = working w /\ committed w' = working w /\ txn w' = Idle
    /\ EXTENSIONS w' = EXTENSIONS w /\ autocommit w' = autocommit w
    /\ trace w' = trace w ++ [ECommit Primary].
Proof.
  unfold commit, settled. cbn zeta. world_simpl. intros [Ht | Hc].
  - destruct (txn w); [ | | done]; eexists; (split; [reflexivity | done]).
  - destruct (txn w); eexists; (split; [reflexivity | ]); world_simpl;
      rewrite ?Hc; done.
Qed.

End Outcomes.

Section PgTeardown.

Lemma torn_down_cascade d : Pg.torn_down d -> Pg.drop_schema_cascade d = d.
Proof.
  destruct d. unfold Pg.torn_down, Pg.drop_schema_cascade. cbn.
  intros (-> & -> & -> & -> & -> & -> & _). reflexivity.
Qed.

Lemma set_exts_same d : Pg.set_exts (Pg.exts d) d = d.
Proof. by destruct d. Qed.

(** [drop extension if exists]: when it succeeds, the extension is gone and
    nothing else changed. *)
Lemma drop_extension_ok name d d' rows :
  Pg.exec (DropExtension name) d = Some (d', rows) ->
  d' = Pg.set_exts (Pg.exts d ∖ {[ name ]}) d.
Proof.
  cbn [Pg.exec]. unfold Pg.installed, Pg.when_ok.
  destruct (bool_decide (name ∈ Pg.exts d)) eqn:Hi.
  - case_match; intros; by simplify_eq.
  - intros. simplify_eq. apply bool_decide_eq_false in Hi.
    rewrite <- (set_exts_same d') at 1. f_equal.
    apply set_eq. intros x. rewrite elem_of_difference, elem_of_singleton.
    split; [ | tauto]. intros Hx. split; [done | ]. by intros ->.
Qed.

Lemma drop_loop rows (w w' : World Pg.State) :
  for_each rows drop_unless_registered w = (w', Ok tt) ->
  EXTENSIONS w' = EXTENSIONS w
  /\ (settled w -> settled w')
  /\ exists E', working w' = Pg.set_exts E' (working w)
       /\ forall name, name ∈ E' <->
             name ∈ Pg.exts (working w)
             /\ ~ (In name rows /\ name ∉ EXTENSIONS w).
Proof.
  revert w. induction rows as [ | x rows IH]; intros w.
  - cbn [for_each]. intros [= <-]. split; [done | ]. split; [done | ].
    exists (Pg.exts (working w)). split; [by rewrite set_exts_same | ].
    intros name. cbn [In]. tauto.
  - cbn [for_each]. unfold bind at 1.
    destruct (drop_unless_registered x w) as [w0 [[] | e]] eqn:E0; [ | done].
    intros Hrest. destruct (IH _ Hrest) as (HE & Hs & E' & Hw & HE').
    revert E0. unfold drop_unless_registered, bind at 1, get_EXTENSIONS.
    destruct (decide (x ∈ EXTENSIONS w)) as [Hin | Hnin].
    + intros [= <-]. split; [done | ]. split; [done | ].
      exists E'. split; [done | ]. intros name. rewrite HE'. cbn [In].
      split; [ | tauto]. intros [? Hn]. split; [done | ].
      intros [[-> | ?] ?]; tauto.
    + unfold bind.
      destruct (execute Primary (DropExtension x) w) as [wx [rws | e]] eqn:Ex;
        [ | done].
      intros [= <-]. apply execute_ok in Ex as (Hsem & Hset & HEx & _).
      cbn [sem Pg.database] in Hsem. apply drop_extension_ok in Hsem.
      split; [congruence | ]. split; [auto | ].
      exists E'. split.
      * rewrite Hw, Hsem. by destruct (working w).
      * intros name. rewrite HE', Hsem, HEx.
        replace (Pg.exts (Pg.set_exts (Pg.exts (working w) ∖ {[x]}) (working w)))
          with (Pg.exts (working w) ∖ {[x]}) by (by destruct (working w)).
        rewrite elem_of_difference, elem_of_singleton. cbn [In].
        split.
        -- intros [[? ?] Hn]. split; [done | ]. intros [[-> | ?] ?]; tauto.
        -- intros [? Hn]. split; [split; [done | ] | ].
           ++ intros ->. apply Hn. tauto.
           ++ intros [? ?]. apply Hn. tauto.
Qed.

Lemma drop_role_after_cascade d d' rows :
  Pg.exec DropRole (Pg.drop_schema_cascade d) = Some (d', rows) ->
  Pg.torn_down d'.
Proof.
  destruct d. cbn. unfold Pg.when_ok, Pg.torn_down.
  repeat case_match; intros; simplify_eq; done.
Qed.

Lemma teardown_drops_post (w w1 : World Pg.State) :
  teardown_drops w = (w1, Ok tt) ->
  committed w1 = working w1 /\ txn w1 = Idle
  /\ EXTENSIONS w1 = EXTENSIONS w
  /\ Pg.torn_down (committed w1)
  /\ Pg.only_registered (EXTENSIONS w1) (committed w1).
Proof.
  unfold teardown_drops.
  unfold bind at 1.
  destruct (execute Primary DropSchema w) as [wa [ra | e]] eqn:Ea; [ | done].
  apply execute_ok in Ea as (Sa & _ & Xa & _).
  unfold bind at 1.
  destruct (execute Primary DropRole wa) as [wb [rb | e]] eqn:Eb; [ | done].
  apply execute_ok in Eb as (Sb & Jb & Xb & _).
  destruct (commit_settled wb Jb) as (wc & Ec & Wc & Cc & Tc & Xc & _).
  unfold bind at 1. rewrite Ec.
  unfold bind at 1.
  destruct (execute Primary SelDemoExts wc) as [wd [rows | e]] eqn:Ed; [ | done].
  apply execute_ok in Ed as (Sd & Jd & Xd & _).
  unfold bind at 1.
  destruct (for_each rows drop_unless_registered wd) as [we [[] | e]] eqn:Ee;
    [ | done].
  apply drop_loop in Ee as (Xe & Je & E' & We & HE').
  destruct (commit_settled we (Je Jd)) as (wf & Ef & Wf & Cf & Tf & Xf & _).
  rewrite Ef. intros [= <-].
  change (Some (Pg.drop_schema_cascade (working w), []) = Some (working wa, ra))
    in Sa.
  change (Pg.exec DropRole (working wa) = Some (working wb, rb)) in Sb.
  change (Some (working wc,
                List.filter (fun name => Pg.installed name (working wc))
                  Pg.demo_extensions) = Some (working wd, rows)) in Sd.
  assert (List.filter (fun name => Pg.installed name (working wc))
            Pg.demo_extensions = rows) as Hrows by congruence.
  assert (working wc = working wd) as Sd' by congruence. clear Sd.
  rename Sd' into Sd. injection Sa as Sa _.
  assert (Pg.torn_down (working wb)) as Htd.
  { rewrite <- Sa in Sb. by apply drop_role_after_cascade in Sb. }
  split; [congruence | ]. split; [done | ]. split; [congruence | ].
  rewrite Cf, We, <- Sd, Wc. split.
  - revert Htd. unfold Pg.torn_down. by destruct (working wb).
  - intros name Hn Hin.
    replace (Pg.exts (Pg.set_exts E' (working wb))) with E' in Hin
      by (by destruct (working wb)).
    apply HE' in Hin as [Hin Hnot].
    rewrite Xf, Xe. destruct (decide (name ∈ EXTENSIONS wd)) as [ | Hout]; [done | ].
    exfalso. apply Hnot. split; [ | done].
    rewrite <- Hrows. apply filter_In. split; [done | ].
    unfold Pg.installed. apply bool_decide_eq_true.
    by rewrite <- Sd in Hin.
Qed.

End PgTeardown.

Section Steady.
Context {D : Type} `{Database D}.

Lemma execute_steady s d E rows (w : World D) :
  steady d E w -> sem s d = Some (d, rows) ->
  exists w', execute Primary s w = (w', Ok rows) /\ steady d E w'.
Proof.
  intros (Hw & Hc & Ht & HE) Hs. unfold execute, steady. cbn zeta. world_simpl.
  rewrite Hw, Hs.
  destruct (autocommit w), (txn w); try done;
    eexists; (split; [reflexivity | ]); world_simpl; done.
Qed.

Lemma commit_steady d E (w : World D) :
  steady d E w -> exists w', commit Primary w = (w', Ok tt) /\ steady d E w'.
Proof.
  intros (Hw & Hc & Ht & HE). unfold commit, steady. cbn zeta. world_simpl.
  destruct (txn w); try done; eexists; (split; [reflexivity | ]);
    world_simpl; done.
Qed.

Lemma guarded_revoke_steady s d E (w : World D) :
  steady d E w -> sem s d = None ->
  exists w', guarded_revoke s w = (w', Ok tt) /\ steady d E w'.
Proof.
  intros (Hw & Hc & Ht & HE) Hs.
  unfold guarded_revoke, try_except, try_except_else, bind, execute, rollback,
    ret, steady.
  cbn zeta. world_simpl. rewrite Hw, Hs.
  destruct (autocommit w), (txn w); try done; cbn [is_Exception];
    eexists; (split; [reflexivity | ]); world_simpl; done.
Qed.

Lemma drop_loop_registered rows (w : World D) :
  (forall name, In name rows -> name ∈ EXTENSIONS w) ->
  for_each rows drop_unless_registered w = (w, Ok tt).
Proof.
  induction rows as [ | x rows IH]; intros Hall; [done | ].
  cbn [for_each]. unfold bind at 1, drop_unless_registered at 1, bind at 1,
    get_EXTENSIONS.
  destruct (decide (x ∈ EXTENSIONS w)) as [ | Hout].
  - apply IH. intros name Hn. apply Hall. by right.
  - exfalso. apply Hout, Hall. by left.
Qed.

End Steady.

Section Idempotence.

Lemma teardown_again (w : World Pg.State) d :
  steady d (EXTENSIONS w) w -> Pg.torn_down d ->
  Pg.only_registered (EXTENSIONS w) d ->
  exists w', teardown_demo w = (w', Ok tt) /\ steady d (EXTENSIONS w) w'.
Proof.
  intros Hs Htd Hreg. set (E := EXTENSIONS w) in *.
  assert (Pg.role d = false) as Hrole by (by destruct Htd as (_&_&_&_&_&_&?)).
  assert (forall s, s = RevokeFunction \/ s = RevokeSchema \/ s = RevokeDatabase ->
                    sem s d = None) as Hrev.
  { intros s [-> | [-> | ->]]; cbn; by rewrite Hrole. }
  destruct (guarded_revoke_steady RevokeFunction d E w Hs) as (w1 & E1 & S1); [auto | ].
  destruct (guarded_revoke_steady RevokeSchema d E w1 S1) as (w2 & E2 & S2); [auto | ].
  destruct (guarded_revoke_steady RevokeDatabase d E w2 S2) as (w3 & E3 & S3); [auto | ].
  destruct (execute_steady DropSchema d E [] w3 S3) as (w4 & E4 & S4).
  { cbn. by rewrite torn_down_cascade. }
  destruct (execute_steady DropRole d E [] w4 S4) as (w5 & E5 & S5).
  { cbn. by rewrite Hrole. }
  destruct (commit_steady d E w5 S5) as (w6 & E6 & S6).
  destruct (execute_steady SelDemoExts d E
              (List.filter (fun name => Pg.installed name d) Pg.demo_extensions)
              w6 S6) as (w7 & E7 & S7); [done | ].
  destruct (commit_steady d E w7 S7) as (w8 & E8 & S8).
  exists w8. split; [ | done].
  unfold teardown_demo. rewrite teardown_revokes_unfold.
  rewrite bind_assoc, (bind_ok _ _ _ _ _ E1).
  rewrite bind_assoc, (bind_ok _ _ _ _ _ E2).
  rewrite (bind_ok _ _ _ _ _ E3).
  unfold teardown_drops.
  rewrite (bind_ok _ _ _ _ _ E4), (bind_ok _ _ _ _ _ E5), (bind_ok _ _ _ _ _ E6).
  rewrite (bind_ok _ _ _ _ _ E7).
  rewrite (bind_ok _ _ w7 w7 tt); [done | ].
  apply drop_loop_registered. intros name Hn.
  apply filter_In in Hn as [Hn Hi].
  destruct S7 as (_ & _ & _ & ->). apply Hreg; [done | ].
  by apply bool_decide_eq_true in Hi.
Qed.

(** C5: teardown is idempotent.  After a teardown that completed, a second
    teardown completes too and leaves the database as the first one left
    it: the namespace is absent, the restricted role is absent, and every
    demo extension still installed is one of the registry. *)
Theorem teardown_idempotent (w w1 : World Pg.State) :
  teardown_demo w = (w1, Ok tt) ->
  exists w2,
    teardown_demo w1 = (w2, Ok tt)
    /\ committed w2 = committed w1 /\ working w2 = committed w1
    /\ Pg.schema (committed w1) = false
    /\ Pg.role (committed w1) = false
    /\ Pg.only_registered (EXTENSIONS w1) (committed w1).
Proof.
  intros Hrun.
  destruct (teardown_revokes_run w) as (_ & _ & _ & _ & Ed & _).
  rewrite Ed in Hrun.
  apply teardown_drops_post in Hrun as (Hc & Ht & _ & Htd & Hreg).
  destruct (teardown_again w1 (committed w1)) as (w2 & E2 & S2); try done.
  { unfold steady. rewrite Ht. by repeat split. }
  exists w2. split; [done | ].
  destruct S2 as (Hw2 & Hc2 & _).
  destruct Htd as (Hsch & _ & _ & _ & _ & _ & Hrole). by repeat split.
Qed.

End Idempotence.

Section PgSetup.

(** Validation on a server that has the library preloaded: the registry is
    filled and the transaction rolled back. *)
Lemma validate_active d keys tr :
  Pg.preloaded d = true ->
  exists E,
    validate_demo (mkWorld d d Idle false None ∅ keys tr)
    = (mkWorld d d Idle false None E keys
         (tr ++ [EExec Primary SelPreload; EExec Primary SelExtensions;
                 ERollback Primary]), Ok true)
    /\ forall name, name ∈ E <-> name ∈ Pg.exts d.
Proof.
  intros Hp. unfold Pg.preloaded in Hp.
  destruct (Pg.preload d) as [setting | ] eqn:Hs; [ | done].
  unfold validate_demo, check_preload_library, check_existing_extensions.
  unfold bind at 1 2. unfold execute at 1. cbn zeta. world_simpl.
  cbn [sem Pg.database Pg.exec]. rewrite Hs. cbn [option_list option_rect fetchone head].
  rewrite Hp. unfold ret at 1. world_simpl.
  unfold bind at 1 2 3, execute. cbn zeta. world_simpl.
  cbn [sem Pg.database Pg.exec].
  match goal with |- context [for_each ?rows EXTENSIONS_add ?w] =>
    destruct (register_all rows w) as (E & -> & HE) end.
  exists E. split.
  - unfold rollback at 1. cbn zeta. world_simpl. unfold ret.
    by rewrite <- !app_assoc.
  - intros name. rewrite HE. world_simpl. rewrite elem_of_elements.
    split; [ | by left].
    intros [Hn | Hn]; [done | by apply elem_of_empty in Hn].
Qed.

Lemma setup_on_existing_schema (w : World Pg.State) :
  Pg.schema (working w) = true -> autocommit w = false -> txn w = Idle ->
  setup_demo w
  = (mkWorld (committed w) (committed w) Idle false (uconn w) (EXTENSIONS w)
       (stdin w) (trace w ++ [EExec Primary CreateSchema; ERollback Primary]),
     Raise (DbError CreateSchema)).
Proof.
  intros Hs Ha Ht.
  unfold setup_demo, setup_statements, try_except_else.
  unfold bind at 1. unfold execute at 1. cbn zeta. world_simpl.
  rewrite Ha, Ht. cbn [sem Pg.database Pg.exec]. unfold Pg.when_ok.
  rewrite Hs. cbn [negb is_Exception].
  unfold bind, rollback, raise. cbn zeta. world_simpl.
  by rewrite <- app_assoc.
Qed.

(** C9 (amended): setup is not idempotent.  On a server that passes
    validation and already has the namespace, a run with [init] that is not
    teardown-only reaches setup, which sends the schema creation
    unconditionally as its first statement; it fails, setup rolls back and
    the run is aborted: no demo statement is sent, only the cleanup of
    [run_demo] follows, and [run_demo] raises. *)
Theorem setup_fails_on_existing_namespace teardown d keys :
  Pg.schema d = true -> Pg.preloaded d = true ->
  exists wf e cleanup,
    run_demo true teardown false (start d keys) = (wf, Raise e)
    /\ trace wf = [EConnect Primary; EExec Primary SelPreload;
                   EExec Primary SelExtensions; ERollback Primary;
                   EExec Primary CreateSchema; ERollback Primary]
                  ++ cleanup ++ [ERollback Primary]
    /\ Forall harmless cleanup
    /\ (teardown = false -> cleanup = [] /\ e = DbError CreateSchema
                            /\ committed wf = d).
Proof.
  intros Hs Hp.
  destruct (validate_active d keys [EConnect Primary] Hp) as (E & Ev & _).
  set (wv := mkWorld d d Idle false None E keys _) in Ev.
  pose proof (setup_on_existing_schema wv Hs eq_refl eq_refl) as Es.
  cbn [committed uconn EXTENSIONS stdin trace wv] in Es.
  set (ws := mkWorld d d Idle false None E keys _) in Es.
  assert (run_phases true false
            (mkWorld d d Idle false None ∅ keys [EConnect Primary])
          = (ws, Raise (DbError CreateSchema))) as Ep.
  { unfold run_phases. cbn [negb]. unfold bind at 1. rewrite Ev.
    unfold bind at 1. by rewrite Es. }
  destruct teardown.
  - destruct (teardown_one_ns_drop ws) as (td & Tt & _ & Ft).
    destruct (teardown_demo ws) as [w2 r2] eqn:Et. cbn [fst] in Tt.
    rewrite <- (run_cleanup_teardown false) in Et.
    pose proof (run_demo_eq _ _ _ _ _ _ _ _ _ eq_refl Ep Et) as ->.
    exists (fst (rollback Primary w2)),
           (match r2 with Ok _ => DbError CreateSchema | Raise e2 => e2 end), td.
    split; [by destruct r2 as [[] | ?] | ].
    split; [ | by split].
    rewrite trace_rollback, Tt. subst ws. cbn [trace app].
    by rewrite <- ?app_assoc.
  - pose proof (run_demo_eq _ _ _ _ _ _ _ _ _ eq_refl Ep (run_cleanup_skip ws))
      as ->.
    exists (fst (rollback Primary ws)), (DbError CreateSchema), [].
    split; [done | ]. split; [ | by split].
    rewrite trace_rollback. subst ws. cbn [trace app]. by rewrite <- ?app_assoc.
Qed.

End PgSetup.

(** * Concrete runs on the PostgreSQL model *)

(** Decides a membership between concrete sets by evaluation. *)
Ltac decide_by_computation :=
  apply (bool_decide_unpack _); vm_compute; exact I.

(** C2: the registry is filled only by a validation that accepts the
    server.  On the teardown-only path and after a validation that reports
    the library inactive it is empty, and teardown drops pg_trgm although it
    was installed before the run; on the path through validation the same
    extension is kept. *)
Theorem teardown_drops_preexisting_extension :
  "pg_trgm" ∈ Pg.exts Pg.with_trgm
  /\ (let w := fst (run_demo true true true (start Pg.with_trgm [])) in
      EXTENSIONS w = ∅
      /\ In (EExec Primary (DropExtension "pg_trgm")) (trace w)
      /\ "pg_trgm" ∉ Pg.exts (committed w))
  /\ (let w := fst (run_demo true true false
                      (start Pg.with_trgm_not_preloaded [])) in
      EXTENSIONS w = ∅
      /\ In (EExec Primary (DropExtension "pg_trgm")) (trace w)
      /\ "pg_trgm" ∉ Pg.exts (committed w))
  /\ (let w := fst (run_demo true true false
                      (start Pg.with_trgm (repeat Enter 18))) in
      "pg_trgm" ∈ EXTENSIONS w
      /\ ~ In (EExec Primary (DropExtension "pg_trgm")) (trace w)
      /\ "pg_trgm" ∈ Pg.exts (committed w)).
Proof.
  split; [decide_by_computation | ].
  split; [ | split].
  - cbn zeta. split; [by vm_compute | ]. split.
    + vm_compute. tauto.
    + decide_by_computation.
  - cbn zeta. split; [by vm_compute | ]. split.
    + vm_compute. tauto.
    + decide_by_computation.
  - cbn zeta. split; [decide_by_computation | ]. split.
    + vm_compute. intuition discriminate.
    + decide_by_computation.
Qed.

(** C1, as stated, fails: the library is not preloaded, teardown-only was
    not requested, and the default run still executes teardown, namespace
    drop included. *)
Lemma validation_gate_counterexample :
  snd (check_preload_library "pg_stat_statements"
         (fst (connect Primary (start Pg.not_preloaded [])))) = Ok false
  /\ count is_ns_drop
       (trace (fst (run_demo true true false (start Pg.not_preloaded [])))) = 1
  /\ trace (fst (run_demo true true false (start Pg.not_preloaded [])))
     = [EConnect Primary; EExec Primary SelPreload;
        EExec Primary RevokeFunction; ERollback Primary;
        EExec Primary RevokeSchema; ERollback Primary;
        EExec Primary RevokeDatabase; ERollback Primary;
        EExec Primary DropSchema; EExec Primary DropRole; ECommit Primary;
        EExec Primary SelDemoExts; ECommit Primary; ECommit Primary].
Proof. repeat split; by vm_compute. Qed.

(** Validation gating on the same server, with [teardown] switched off. *)
Lemma validation_gate_witness :
  can_connect Primary Pg.not_preloaded = true
  /\ snd (check_preload_library "pg_stat_statements"
            (fst (connect Primary (start Pg.not_preloaded [])))) = Ok false
  /\ (let w := fst (run_demo true false false (start Pg.not_preloaded [])) in
      Forall harmless (trace w) /\ count is_ns_drop (trace w) = 0).
Proof.
  split; [reflexivity | ]. split; [reflexivity | ].
  apply (validation_gate true false Pg.not_preloaded []); reflexivity.
Defined.

(** C7, as stated, fails: a validation that reports the library inactive
    returns with the transaction of its query still open, and teardown
    starts inside it; and a demo phase that is left by an exception, here
    the statistics reset on a server without the extension, leaves its
    transaction aborted. *)
Lemma phases_resolve_transaction_counterexample :
  let wc := fst (connect Primary (start Pg.not_preloaded [])) in
  let wd := start Pg.fresh [Enter] in
  snd (validate_demo wc) = Ok false
  /\ txn (fst (validate_demo wc)) = InTxn
  /\ trace (fst (validate_demo wc)) = [EConnect Primary; EExec Primary SelPreload]
  /\ take 3 (trace (fst (run_demo true true false (start Pg.not_preloaded []))))
     = [EConnect Primary; EExec Primary SelPreload; EExec Primary RevokeFunction]
  /\ snd (demo_pg_stat_statements false wd) = Raise (DbError PssReset)
  /\ txn (fst (demo_pg_stat_statements false wd)) = Aborted.
Proof. repeat split; by vm_compute. Qed.

(** Setup on a server that cannot install pg_trgm: the namespace created
    just before is rolled back with it. *)
Lemma setup_demo_atomic_witness :
  let w := start Pg.without_trgm_package [] in
  autocommit w = false
  /\ match setup_demo w with
     | (w', Ok _) =>
         (exists w1, setup_statements w = (w1, Ok tt))
         /\ exists stmts,
              trace w' = trace w ++ stmts ++ [ECommit Primary]
              /\ Forall is_setup_exec stmts
              /\ txn w' = Idle /\ committed w' = working w'
     | (w', Raise e) =>
         (exists w1, setup_statements w = (w1, Raise e))
         /\ exists stmts,
              trace w' = trace w ++ stmts ++ [ERollback Primary]
              /\ Forall is_setup_exec stmts
              /\ txn w' = Idle
              /\ committed w' = committed w /\ working w' = committed w
     end.
Proof.
  cbn zeta. split; [reflexivity | ].
  apply (setup_demo_atomic (start Pg.without_trgm_package [])). reflexivity.
Defined.

(** An interrupt at the first prompt of the pg_trgm demo. *)
Lemma teardown_runs_after_failure_witness :
  let wc := fst (connect Primary (start Pg.fresh [CtrlC])) in
  let w1 := fst (run_phases true false wc) in
  let out := run_demo true true false (start Pg.fresh [CtrlC]) in
  can_connect Primary Pg.fresh = true
  /\ run_phases true false wc = (w1, Raise KeyboardInterrupt)
  /\ (exists td, trace (fst out) = trace w1 ++ td ++ [ERollback Primary]
                 /\ count is_ns_drop td = 1)
  /\ count is_ns_drop (trace (fst out)) = 1
  /\ exists e', snd out = Raise e'
                /\ (snd (teardown_demo w1) = Ok tt -> e' = KeyboardInterrupt).
Proof.
  cbn zeta. split; [reflexivity | ]. split; [by vm_compute | ].
  apply (teardown_runs_after_failure true false Pg.fresh [CtrlC]
           (fst (run_phases true false
                   (fst (connect Primary (start Pg.fresh [CtrlC])))))
           KeyboardInterrupt); [reflexivity | by vm_compute].
Defined.

(** Teardown, twice, on what a demo run left behind. *)
Lemma teardown_idempotent_witness :
  let w := start Pg.after_demo [] in
  let w1 := fst (teardown_demo w) in
  teardown_demo w = (w1, Ok tt)
  /\ exists w2,
       teardown_demo w1 = (w2, Ok tt)
       /\ committed w2 = committed w1 /\ working w2 = committed w1
       /\ Pg.schema (committed w1) = false
       /\ Pg.role (committed w1) = false
       /\ Pg.only_registered (EXTENSIONS w1) (committed w1).
Proof.
  cbn zeta. split; [by vm_compute | ].
  apply (teardown_idempotent (start Pg.after_demo [])). by vm_compute.
Defined.

(** The restricted session, with an interrupt at its second prompt. *)
Lemma secondary_session_released_witness :
  let w := start Pg.after_demo [Enter; Enter; CtrlC] in
  uconn w = None
  /\ uconn (fst (demo_unprivileged_user false w)) = None
  /\ forall evs,
       trace (fst (demo_unprivileged_user false w)) = trace w ++ evs ->
       In (EConnect Secondary) evs ->
       exists used,
         evs = used ++ [ERollback Secondary; EClose Secondary]
                   ++ (if is_Raise (snd (demo_unprivileged_user false w))
                       then [] else [ERollback Primary]).
Proof.
  cbn zeta. split; [reflexivity | ].
  apply (secondary_session_released false
           (start Pg.after_demo [Enter; Enter; CtrlC])). reflexivity.
Defined.

(** C9, as stated, fails: with [init] enabled and the namespace present, a
    teardown-only run never reaches setup and completes normally, and so
    does a run on a server that validation turns down. *)
Lemma setup_fails_on_existing_namespace_counterexample :
  let existing_not_preloaded :=
    Pg.mk (Some "auto_explain") true (Pg.available Pg.after_demo)
      (Pg.exts Pg.after_demo) true true true true true true true true true in
  Pg.schema Pg.after_demo = true
  /\ run_demo true true true (start Pg.after_demo [])
     = (fst (run_demo true true true (start Pg.after_demo [])), Ok tt)
  /\ ~ In (EExec Primary CreateSchema)
         (trace (fst (run_demo true true true (start Pg.after_demo []))))
  /\ Pg.schema existing_not_preloaded = true
  /\ run_demo true false false (start existing_not_preloaded [])
     = (fst (run_demo true false false (start existing_not_preloaded [])), Ok tt)
  /\ trace (fst (run_demo true false false (start existing_not_preloaded [])))
     = [EConnect Primary; EExec Primary SelPreload; ECommit Primary].
Proof.
  cbn zeta. split; [reflexivity | ]. split; [by vm_compute | ].
  split; [vm_compute; intuition discriminate | ].
  split; [reflexivity | ]. split; by vm_compute.
Qed.

(** A second run with [init] on what a demo run left behind. *)
Lemma setup_fails_on_existing_namespace_witness :
  Pg.schema Pg.after_demo = true /\ Pg.preloaded Pg.after_demo = true
  /\ exists wf e cleanup,
       run_demo true false false (start Pg.after_demo []) = (wf, Raise e)
       /\ trace wf = [EConnect Primary; EExec Primary SelPreload;
                      EExec Primary SelExtensions; ERollback Primary;
                      EExec Primary CreateSchema; ERollback Primary]
                     ++ cleanup ++ [ERollback Primary]
       /\ Forall harmless cleanup
       /\ (false = false -> cleanup = [] /\ e = DbError CreateSchema
                            /\ committed wf = Pg.after_demo).
Proof.
  split; [reflexivity | ]. split; [reflexivity | ].
  apply (setup_fails_on_existing_namespace false Pg.after_demo []); reflexivity.
Defined.

(** The first revoke takes the privilege on the function away, the third
    fails, and the privilege is back. *)
Lemma revoke_failure_reverts_earlier_revokes_witness :
  let w := start Pg.no_postgres_database [] in
  let w1 := fst (guarded_revoke RevokeFunction w) in
  let w2 := fst (guarded_revoke RevokeSchema w1) in
  let w3 := fst (guarded_revoke RevokeDatabase w2) in
  autocommit w = false
  /\ Pg.priv_func (working w1) = false
  /\ Pg.priv_func (working w3) = true
  /\ fst (teardown_revokes w) = w3
  /\ emitting (fun e => is_commit e = false) w w3
  /\ committed w3 = committed w
  /\ (is_Raise (snd (execute Primary RevokeSchema w1)) = true ->
      working w2 = committed w)
  /\ (is_Raise (snd (execute Primary RevokeDatabase w2)) = true ->
      working w3 = committed w).
Proof.
  cbn zeta. split; [reflexivity | ]. split; [reflexivity | ].
  split; [reflexivity | ].
  apply (revoke_failure_reverts_earlier_revokes
           (start Pg.no_postgres_database [])). reflexivity.
Defined.

(** * Further properties of the script *)

(** ** The registry of extensions *)

Section RegistryFacts.
Context {D : Type} `{Database D}.

#[global] Instance registry_kept_preorder : PreOrder (registry_kept (D:=D)).
Proof.
  split; unfold registry_kept; [by intros w | ].
  intros w1 w2 w3 E1 E2. by rewrite E2.
Qed.

Lemma registry_kept_execute c s : respects registry_kept (execute (D:=D) c s).
Proof.
  intros w. unfold registry_kept, execute. cbn zeta. world_simpl.
  by repeat case_match.
Qed.

Lemma registry_kept_commit c : respects registry_kept (commit (D:=D) c).
Proof.
  intros w. unfold registry_kept, commit. cbn zeta. world_simpl.
  by repeat case_match.
Qed.

Lemma registry_kept_rollback c : respects registry_kept (rollback (D:=D) c).
Proof.
  intros w. unfold registry_kept, rollback. cbn zeta. world_simpl.
  by repeat case_match.
Qed.

Lemma registry_kept_prompt : respects registry_kept (prompt (D:=D)).
Proof.
  intros w. unfold registry_kept, prompt. cbn zeta. world_simpl.
  by repeat case_match.
Qed.

Lemma registry_kept_connect c : respects registry_kept (connect (D:=D) c).
Proof. intros w. unfold registry_kept, connect. by repeat case_match. Qed.

Lemma registry_kept_close : respects registry_kept (close_uconn (D:=D)).
Proof. by intros w. Qed.

Lemma registry_kept_set_autocommit b :
  respects registry_kept (set_autocommit (D:=D) b).
Proof. intros w. unfold registry_kept, set_autocommit. by case_match. Qed.

Lemma registry_kept_get : respects registry_kept (get_EXTENSIONS (D:=D)).
Proof. by intros w. Qed.

End RegistryFacts.

(** Walks a script function that only reads the registry. *)
Ltac registry_step :=
  first
    [ apply registry_kept_execute | apply registry_kept_commit
    | apply registry_kept_rollback | apply registry_kept_prompt
    | apply registry_kept_connect | apply registry_kept_close
    | apply registry_kept_set_autocommit | apply registry_kept_get
    | respects_step ].

Ltac registry_walk := repeat registry_step.

Section RegistryUse.
Context {D : Type} `{Database D}.

Lemma registry_kept_check_preload_library lib :
  respects registry_kept (check_preload_library (D:=D) lib).
Proof. registry_walk. Qed.

Lemma registry_kept_teardown_demo :
  respects registry_kept (teardown_demo (D:=D)).
Proof. registry_walk. Qed.

(** X1: nothing but validation writes the registry.  The preload check,
    setup, both demos and teardown leave the global [EXTENSIONS] as they
    found it, whatever the server answers and however they end. *)
Theorem registry_written_by_validation_only lib (init : bool) (w : World D) :
  EXTENSIONS (fst (check_preload_library lib w)) = EXTENSIONS w
  /\ EXTENSIONS (fst (setup_demo w)) = EXTENSIONS w
  /\ EXTENSIONS (fst (demo_pg_trgm init w)) = EXTENSIONS w
  /\ EXTENSIONS (fst (demo_pg_stat_statements init w)) = EXTENSIONS w
  /\ EXTENSIONS (fst (teardown_demo w)) = EXTENSIONS w.
Proof.
  assert (forall {A} (m : M D A), respects registry_kept m ->
            EXTENSIONS (fst (m w)) = EXTENSIONS w) as Hr
    by (intros A m Hm; apply Hm).
  repeat split; apply Hr; registry_walk.
Qed.

End RegistryUse.


Section Frames.
Context {D : Type} `{Database D}.

(** What a statement of the primary session leaves alone. *)
Lemma execute_frame s (w : World D) :
  autocommit (fst (execute Primary s w)) = autocommit w
  /\ EXTENSIONS (fst (execute Primary s w)) = EXTENSIONS w
  /\ (autocommit w = false ->
      committed (fst (execute Primary s w)) = committed w).
Proof.
  unfold execute. cbn zeta. world_simpl.
  repeat case_match; world_simpl; repeat split; congruence.
Qed.

(** X2: what an accepting validation leaves.  When [validate_demo] returns
    [True], the registry holds what it held before together with every
    row of the catalogue query, no transaction is open, the session sees
    the durable state and, outside autocommit, that state is the one
    validation started from. *)
Theorem validation_fills_registry (w w' : World D) :
  validate_demo w = (w', Ok true) ->
  exists w1 rows,
    execute Primary SelExtensions
      (fst (check_preload_library "pg_stat_statements" w)) = (w1, Ok rows)
    /\ (forall name, name ∈ EXTENSIONS w' <-> name ∈ rows \/ name ∈ EXTENSIONS w)
    /\ txn w' = Idle /\ working w' = committed w'
    /\ (autocommit w = false -> committed w' = committed w).
Proof.
  unfold validate_demo. unfold bind at 1.
  pose proof (registry_kept_check_preload_library "pg_stat_statements" w)
    as Rp.
  unfold registry_kept in Rp.
  assert (autocommit (fst (check_preload_library "pg_stat_statements" w))
          = autocommit w
          /\ (autocommit w = false ->
              committed (fst (check_preload_library "pg_stat_statements" w))
              = committed w)) as (Ap & Cp).
  { unfold check_preload_library, bind.
    pose proof (execute_frame SelPreload w) as (Ha & _ & Hc).
    destruct (execute Primary SelPreload w) as [wx [rows | e]]; [ | done].
    cbn [fst] in *. by repeat case_match. }
  destruct (check_preload_library "pg_stat_statements" w) as [w0 [[ | ] | e]];
    [ | done | done].
  cbn [fst] in *. unfold check_existing_extensions, bind.
  pose proof (execute_frame SelExtensions w0) as (Ha & He & Hc).
  destruct (execute Primary SelExtensions w0) as [w1 [rows | e]] eqn:Ex; [ | done].
  cbn [fst] in *.
  destruct (register_all rows w1) as (E & -> & HE).
  unfold rollback, ret. cbn zeta. world_simpl. intros [= <-]. world_simpl.
  exists w1, rows. split; [done | ]. split.
  { intros name. rewrite HE, He, Rp. tauto. }
  split; [done | ]. split; [done | ].
  intros Hm. rewrite Hc by congruence. auto.
Qed.

(** X3: setup never installs an extension of the registry.  Whatever
    happens, [setup_demo] sends no [create extension] for a name that the
    registry holds. *)
Theorem setup_skips_registered (w : World D) :
  exists evs,
    trace (fst (setup_demo w)) = trace w ++ evs
    /\ forall name, name ∈ EXTENSIONS w ->
         Forall (fun e => is_create_extension name e = false) evs.
Proof.
  unfold setup_demo, setup_statements, try_except_else, bind, execute,
    get_EXTENSIONS, commit, rollback, ret, raise.
  repeat (world_simpl; case_match; simplify_eq);
    world_simpl; rewrite <- ?app_assoc; cbn [app];
    (eexists; split; [reflexivity | ]);
    intros name Hin; repeat constructor; cbn [is_create_extension];
    apply bool_decide_eq_false; by intros ->.
Qed.

#[global] Instance registry_guarded_preorder E :
  PreOrder (registry_guarded (D:=D) E).
Proof.
  split; unfold registry_guarded.
  - intros w HE. split; [done | reflexivity].
  - intros w1 w2 w3 H12 H23 HE. destruct (H12 HE) as [HE2 Em2].
    destruct (H23 HE2) as [HE3 Em3]. split; [done | by etransitivity].
Qed.

Lemma registry_guarded_intro E {A} (m : M D A) :
  respects registry_kept m -> respects (emitting (drop_allowed E)) m ->
  respects (registry_guarded E) m.
Proof.
  intros Hk He w HE. split; [ | apply He]. rewrite <- HE. apply Hk.
Qed.

Lemma registry_guarded_drop E name :
  respects (registry_guarded (D:=D) E) (drop_unless_registered name).
Proof.
  intros w HE.
  change (fst (drop_unless_registered name w))
    with (fst ((if decide (name ∈ EXTENSIONS w) then ret tt
                else execute Primary (DropExtension name) >> ret tt) w)).
  destruct (decide (name ∈ EXTENSIONS w)) as [Hin | Hout].
  - split; [done | reflexivity].
  - apply (registry_guarded_intro E
             (execute Primary (DropExtension name) >> ret tt)); [ | | done].
    + registry_walk.
    + respects_walk. cbn. by rewrite <- HE.
Qed.

End Frames.

(** Walks teardown, stopping at the guarded extension drop. *)
Ltac guarded_step :=
  first
    [ apply registry_guarded_drop
    | apply registry_guarded_intro;
        [solve [registry_walk] | solve [respects_walk; done]]
    | respects_step ].

Section Guard.
Context {D : Type} `{Database D}.

(** X4: teardown drops no extension of the registry.  Whatever the server
    lists as installed and however teardown ends, every [drop extension]
    it sends names an extension outside the registry it started with. *)
Theorem teardown_spares_registered (w : World D) :
  exists evs,
    trace (fst (teardown_demo w)) = trace w ++ evs
    /\ Forall (drop_allowed (EXTENSIONS w)) evs.
Proof.
  assert (respects (registry_guarded (EXTENSIONS w)) (teardown_demo (D:=D)))
    as Hg by (repeat guarded_step).
  by destruct (Hg w eq_refl) as [_ Hev].
Qed.

End Guard.


(** ** Whole runs and the command line *)

Section WholeRun.
Context {D : Type} `{Database D}.

Lemma phases_emit_no_teardown init block :
  respects (emitting (fun e => is_ns_drop e = false /\ no_teardown_stmt e))
    (run_phases (D:=D) init block).
Proof. respects_walk; done. Qed.

Lemma teardown_emits_only_teardown :
  respects (emitting only_teardown_stmt) (teardown_demo (D:=D)).
Proof. respects_walk; done. Qed.

Lemma Forall_weaken {A} (P Q : A -> Prop) l :
  (forall x, P x -> Q x) -> Forall P l -> Forall Q l.
Proof. intros HPQ HP. eapply Forall_impl; eauto. Qed.

Lemma run_demo_ns_drops init teardown block d keys :
  can_connect Primary d = true ->
  count is_ns_drop
    (trace (fst (run_demo (D:=D) init teardown block (start d keys))))
  = (if teardown || block then 1 else 0)
  /\ (teardown || block = false ->
      Forall no_teardown_stmt
        (trace (fst (run_demo init teardown block (start d keys))))).
Proof.
  intros Hc.
  pose proof (phases_emit_no_teardown init block
                (mkWorld d d Idle false None ∅ keys [EConnect Primary]))
    as (evp & Tp & Fp).
  destruct (run_phases init block _) as [w1 r1] eqn:Ep. cbn [fst trace] in Tp.
  assert (count is_ns_drop evp = 0) as Cp.
  { apply count_none. eapply Forall_weaken; [ | exact Fp]. by intros ? []. }
  destruct (teardown || block) eqn:Hflag.
  - destruct (teardown_one_ns_drop w1) as (td & Tt & Ct & _).
    destruct (teardown_demo w1) as [w2 r2] eqn:Et. cbn [fst] in Tt.
    assert (run_cleanup teardown block w1 = (w2, r2)) as Ec
      by (unfold run_cleanup; by rewrite Hflag).
    rewrite (run_demo_eq _ _ _ _ _ _ _ _ _ Hc Ep Ec).
    split; [ | done].
    destruct r2 as [[] | e2], r1 as [[] | e1]; cbn [fst];
      rewrite ?trace_commit, ?trace_rollback, Tt, Tp, !count_app, Ct, Cp; done.
  - assert (run_cleanup teardown block w1 = (w1, Ok tt)) as Ec
      by (unfold run_cleanup; by rewrite Hflag).
    rewrite (run_demo_eq _ _ _ _ _ _ _ _ _ Hc Ep Ec).
    destruct r1 as [[] | e1]; cbn [fst];
      rewrite ?trace_commit, ?trace_rollback, Tp, !count_app, Cp;
      (split; [done | ]); intros _;
      repeat (apply Forall_app; split); try (by repeat constructor);
      eapply Forall_weaken; try exact Fp; by intros ? [].
Qed.

(** X5: the flags alone decide whether teardown runs.  Whatever the server
    answers and whatever the user types, a run that connects sends the
    namespace drop exactly once when [teardown] or [block_demo] is set, and
    not a single teardown statement when neither is. *)
Theorem teardown_runs_iff_requested init teardown block d keys :
  can_connect Primary d = true ->
  count is_ns_drop
    (trace (fst (run_demo (D:=D) init teardown block (start d keys))))
  = (if teardown || block then 1 else 0)
  /\ (teardown || block = false ->
      Forall no_teardown_stmt
        (trace (fst (run_demo init teardown block (start d keys))))).
Proof. exact (run_demo_ns_drops init teardown block d keys). Qed.

(** X6: a teardown-only run neither validates nor fills the registry.  With
    [block_demo] set every statement of the run is a teardown statement on
    the primary session, and the registry is empty when the run ends, so
    that no installed extension is protected from the drops. *)
Theorem teardown_only_sends_teardown_only init teardown d keys :
  can_connect Primary d = true ->
  Forall only_teardown_stmt
    (trace (fst (run_demo (D:=D) init teardown true (start d keys))))
  /\ EXTENSIONS (fst (run_demo init teardown true (start d keys))) = ∅.
Proof.
  intros Hc.
  assert (run_phases init true
            (mkWorld d d Idle false None ∅ keys [EConnect Primary])
          = (mkWorld d d Idle false None ∅ keys [EConnect Primary], Ok tt))
    as Ep by reflexivity.
  pose proof (teardown_emits_only_teardown
                (mkWorld d d Idle false None ∅ keys [EConnect Primary]))
    as (td & Tt & Ft).
  pose proof (registry_kept_teardown_demo
                (mkWorld d d Idle false None ∅ keys [EConnect Primary])) as Rt.
  unfold registry_kept in Rt.
  destruct (teardown_demo _) as [w2 r2] eqn:Et. cbn [fst trace EXTENSIONS] in *.
  assert (run_cleanup teardown true
            (mkWorld d d Idle false None ∅ keys [EConnect Primary]) = (w2, r2))
    as Ec by (unfold run_cleanup; by rewrite orb_true_r).
  rewrite (run_demo_eq _ _ _ _ _ _ _ _ _ Hc Ep Ec).
  destruct r2 as [[] | e2]; cbn [fst].
  - split.
    + rewrite trace_commit, Tt.
      repeat (apply Forall_app; split); try done; by repeat constructor.
    + pose proof (registry_kept_commit Primary w2) as Hk.
      unfold registry_kept in Hk. by rewrite Hk.
  - split.
    + rewrite trace_rollback, Tt.
      repeat (apply Forall_app; split); try done; by repeat constructor.
    + pose proof (registry_kept_rollback Primary w2) as Hk.
      unfold registry_kept in Hk. by rewrite Hk.
Qed.

(** [--no-teardown] and [--only-teardown] never come together. *)
Lemma parse_args_exclusive argv args :
  parse_args argv = Some args ->
  teardown args = negb (existsb (is_flag ArgNoTeardown) argv)
  /\ block_demo args = existsb (is_flag ArgOnlyTeardown) argv
  /\ init_demo args = negb (existsb (is_flag ArgNoInit) argv)
  /\ (teardown args || block_demo args
      = negb (existsb (is_flag ArgNoTeardown) argv)).
Proof.
  unfold parse_args. destruct (last (omap is_url argv)) as [url | ]; [ | done].
  destruct (existsb (is_flag ArgNoTeardown) argv),
    (existsb (is_flag ArgOnlyTeardown) argv); cbn; intros; by simplify_eq.
Qed.

Lemma main_run args (w : World D) :
  main args w
  = match run_demo (init_demo args) (teardown args) (block_demo args) w with
    | (w', Raise KeyboardInterrupt) => (w', Ok tt)
    | out => out
    end.
Proof. reflexivity. Qed.

(** A refused connection: [connect] raises before the [try] is entered, so
    nothing is sent and nothing is cleaned up. *)
Lemma run_demo_refused init teardown block d keys :
  can_connect Primary d = false ->
  run_demo (D:=D) init teardown block (start d keys)
  = (start d keys, Raise OperationalError).
Proof.
  intros Hc. unfold run_demo, with_connect, bind, connect.
  cbn [start committed]. by rewrite Hc.
Qed.

Lemma command_line_connected argv args d keys :
  parse_args argv = Some args ->
  can_connect Primary d = true ->
  count is_ns_drop (trace (fst (main (D:=D) args (start d keys))))
  = (if existsb (is_flag ArgNoTeardown) argv then 0 else 1)
  /\ snd (main args (start d keys)) <> Raise KeyboardInterrupt
  /\ (teardown args = false -> block_demo args = false).
Proof.
  intros Hp Hc.
  destruct (parse_args_exclusive argv args Hp) as (Ht & Hb & _ & Hor).
  pose proof (run_demo_ns_drops (init_demo args) (teardown args)
                (block_demo args) d keys Hc) as (Hcount & _).
  rewrite Hor in Hcount. rewrite main_run.
  destruct (run_demo _ _ _ _) as [w' [[] | e]]; cbn [fst snd] in *.
  - split; [by destruct (existsb _ argv) | ]. split; [done | ].
    intros Hf. rewrite Hf in Hor. cbn in Hor.
    destruct (block_demo args); [ | done].
    rewrite Ht in Hf. by destruct (existsb (is_flag ArgNoTeardown) argv).
  - split.
    + destruct e; cbn [fst]; by destruct (existsb _ argv).
    + split; [by destruct e | ].
      intros Hf. rewrite Hf in Hor. cbn in Hor.
      destruct (block_demo args); [ | done].
      rewrite Ht in Hf. by destruct (existsb (is_flag ArgNoTeardown) argv).
Qed.

(** X7: the command line.  Whenever argparse accepts the arguments: if the
    connection is established, the script runs teardown exactly once,
    unless [--no-teardown] was given, and then not at all; if the
    connection is refused, nothing is sent, teardown does not run and the
    script ends with the error of [connect]; [--only-teardown] cannot
    switch teardown off, since the two options exclude each other; and an
    interrupt never leaves the main block as an exception. *)
Theorem command_line_teardown argv args d keys :
  parse_args argv = Some args ->
  (if can_connect Primary d
   then count is_ns_drop (trace (fst (main (D:=D) args (start d keys))))
        = (if existsb (is_flag ArgNoTeardown) argv then 0 else 1)
   else main args (start d keys) = (start d keys, Raise OperationalError)
        /\ trace (fst (main args (start d keys))) = [])
  /\ snd (main args (start d keys)) <> Raise KeyboardInterrupt
  /\ (teardown args = false -> block_demo args = false).
Proof.
  intros Hp. destruct (can_connect Primary d) eqn:Hc.
  - exact (command_line_connected argv args d keys Hp Hc).
  - destruct (parse_args_exclusive argv args Hp) as (Ht & Hb & _ & Hor).
    rewrite main_run, (run_demo_refused _ _ _ _ _ Hc). cbn [fst snd trace start].
    split; [done | ]. split; [done | ].
    intros Hf. rewrite Hf in Hor. cbn in Hor.
    destruct (block_demo args); [ | done].
    rewrite Ht in Hf. by destruct (existsb (is_flag ArgNoTeardown) argv).
Qed.

End WholeRun.


(** ** Failures in the middle of a phase *)

Section Failures.
Context {D : Type} `{Database D}.

(** A statement that succeeds, sent outside autocommit. *)
Lemma execute_manual_ok s d rows (w : World D) :
  autocommit w = false -> txn w <> Aborted ->
  sem s (working w) = Some (d, rows) ->
  execute Primary s w
  = (mkWorld (committed w) d InTxn false (uconn w) (EXTENSIONS w) (stdin w)
       (trace w ++ [EExec Primary s]), Ok rows).
Proof.
  intros Ha Ht Hs. unfold execute. cbn zeta. world_simpl. rewrite Ha, Hs.
  by destruct (txn w).
Qed.

(** A statement that fails, sent outside autocommit. *)
Lemma execute_manual_fails s (w : World D) :
  autocommit w = false -> txn w <> Aborted ->
  sem s (working w) = None ->
  execute Primary s w
  = (mkWorld (committed w) (working w) Aborted false (uconn w) (EXTENSIONS w)
       (stdin w) (trace w ++ [EExec Primary s]), Raise (DbError s)).
Proof.
  intros Ha Ht Hs. unfold execute. cbn zeta. world_simpl. rewrite Ha, Hs.
  by destruct (txn w).
Qed.

Lemma commit_manual (w : World D) :
  txn w <> Aborted ->
  commit Primary w
  = (mkWorld (working w) (working w) Idle (autocommit w) (uconn w)
       (EXTENSIONS w) (stdin w) (trace w ++ [ECommit Primary]), Ok tt).
Proof. intros Ht. unfold commit. cbn zeta. world_simpl. by destruct (txn w). Qed.

(** X8: the drops of teardown are not guarded.  Outside autocommit, when
    the namespace drop fails, or when it succeeds and the role drop fails,
    teardown raises the error of that statement at once: nothing is sent
    after it, no rollback either, the transaction stays aborted and the
    durable state is the one teardown started from. *)
Theorem teardown_stops_at_failed_drop (w : World D) :
  autocommit w = false ->
  (sem DropSchema (working (fst (teardown_revokes w))) = None ->
   exists w',
     teardown_demo w = (w', Raise (DbError DropSchema))
     /\ trace w' = trace (fst (teardown_revokes w)) ++ [EExec Primary DropSchema]
     /\ committed w' = committed w /\ txn w' = Aborted)
  /\ (forall d rows,
        sem DropSchema (working (fst (teardown_revokes w))) = Some (d, rows) ->
        sem DropRole d = None ->
        exists w',
          teardown_demo w = (w', Raise (DbError DropRole))
          /\ trace w' = trace (fst (teardown_revokes w))
                        ++ [EExec Primary DropSchema; EExec Primary DropRole]
          /\ committed w' = committed w /\ txn w' = Aborted).
Proof.
  intros Ha.
  destruct (teardown_revokes_run w) as (Er & _ & _ & _ & Ed & _).
  destruct (guarded_revoke_run RevokeFunction w) as (v1 & E1 & _ & _ & A1 & C1 & _).
  destruct (guarded_revoke_run RevokeSchema v1) as (v2 & E2 & _ & _ & A2 & C2 & _).
  destruct (guarded_revoke_run RevokeDatabase v2) as (v3 & E3 & _ & _ & A3 & C3 & _).
  rewrite E1 in Er, Ed. cbn [fst] in Er, Ed. rewrite E2 in Er, Ed.
  cbn [fst] in Er, Ed. rewrite E3 in Er, Ed. cbn [fst] in Er, Ed.
  rewrite Er. cbn [fst]. rewrite Ed.
  rewrite Ha in A1. rewrite A1 in A2. rewrite A2 in A3.
  destruct (C1 Ha) as [K1 _]. destruct (C2 A1) as [K2 _].
  destruct (C3 A2) as [K3 T3].
  split.
  - intros Hs. eexists. split.
    + unfold teardown_drops. unfold bind at 1.
      by rewrite (execute_manual_fails _ _ A3 T3 Hs).
    + world_simpl. split; [done | ]. split; [congruence | done].
  - intros d rows Hs Hr. eexists. split.
    + unfold teardown_drops. unfold bind at 1.
      rewrite (execute_manual_ok _ _ _ _ A3 T3 Hs). unfold bind at 1.
      by rewrite execute_manual_fails.
    + world_simpl. rewrite <- app_assoc. split; [done | ].
      split; [congruence | done].
Qed.

(** The copy loop of [load_addr_table] when the copy after [k] successful
    ones fails. *)
Lemma copy_loop_fails {A} (xs : list A) k d dk (w : World D) :
  autocommit w = false -> txn w <> Aborted ->
  working w = d -> committed w = d ->
  copies k d = Some dk -> sem CopyAddr dk = None -> k < length xs ->
  exists w',
    for_each xs (fun _ => copy_addr_data) w = (w', Raise (DbError CopyAddr))
    /\ committed w' = dk /\ working w' = dk /\ autocommit w' = false
    /\ txn w' = Aborted.
Proof.
  revert k d w. induction xs as [ | x xs IH]; intros k d w Ha Ht Hw Hc Hk Hf Hlt;
    [cbn in Hlt; lia | ].
  cbn [for_each]. unfold bind at 1, copy_addr_data at 1, bind at 1.
  destruct k as [ | k]; cbn [copies] in Hk.
  - injection Hk as <-. rewrite execute_manual_fails by congruence.
    eexists. split; [reflexivity | ]. world_simpl. by repeat split.
  - destruct (sem CopyAddr d) as [[d' rows] | ] eqn:Hs; [ | done].
    rewrite (execute_manual_ok CopyAddr d' rows) by congruence.
    rewrite commit_manual by done. world_simpl.
    match goal with |- context [for_each xs _ ?w0] =>
      destruct (IH k d' w0) as (w' & E' & Cw & Ww & Aw & Tw);
        try done; [cbn in Hlt; lia | ] end.
    by exists w'.
Qed.

(** X9: loading the address table is not atomic.  Every bulk copy is
    committed on its own, so when the copy after [k] successful ones fails,
    [init_pg_trgm] rolls back and re-raises, but the table and the [k]
    batches already committed stay. *)
Theorem init_pg_trgm_keeps_committed_batches k dt rows dk (w : World D) :
  autocommit w = false -> txn w <> Aborted ->
  sem CreateAddrTable (working w) = Some (dt, rows) ->
  copies k dt = Some dk -> sem CopyAddr dk = None -> k < 10 ->
  exists w',
    init_pg_trgm w = (w', Raise (DbError CopyAddr))
    /\ committed w' = dk /\ working w' = dk
    /\ txn w' = Idle /\ autocommit w' = false.
Proof.
  intros Ha Ht Hs Hk Hf Hlt.
  unfold init_pg_trgm, try_except_else, create_addr_table, load_addr_table,
    repeat_n.
  unfold bind at 1 2. rewrite (execute_manual_ok _ _ _ _ Ha Ht Hs).
  rewrite commit_manual by done. world_simpl.
  unfold bind at 1.
  match goal with |- context [for_each (seq 0 10) _ ?w0] =>
    destruct (copy_loop_fails (seq 0 10) k dt dk w0)
      as (w' & E' & Cw & Ww & Aw & Tw); try done end.
  rewrite E'. cbn [is_Exception]. unfold bind, rollback, raise. cbn zeta.
  world_simpl. eexists. split; [reflexivity | ]. world_simpl. by repeat split.
Qed.

(** X10: a failing ANALYZE leaves the session in autocommit.  Both index
    builders switch autocommit on for ANALYZE and off after it, without a
    [finally]: when ANALYZE fails the index is committed already and the
    session stays in autocommit for whatever runs next; when the function
    returns, autocommit is off again. *)
Theorem analyze_failure_leaves_autocommit (w : World D) :
  autocommit w = false -> txn w <> Aborted ->
  (forall d rows,
     sem CreateBtreeIndex (working w) = Some (d, rows) ->
     sem AnalyzeAddr d = None ->
     exists w',
       create_addr_btree_index w = (w', Raise (DbError AnalyzeAddr))
       /\ autocommit w' = true /\ committed w' = d /\ txn w' = Idle)
  /\ (forall d rows,
        sem CreateGinIndex (working w) = Some (d, rows) ->
        sem AnalyzeAddr d = None ->
        exists w',
          create_addr_gin_index w = (w', Raise (DbError AnalyzeAddr))
          /\ autocommit w' = true /\ committed w' = d /\ txn w' = Idle)
  /\ (forall w', create_addr_btree_index w = (w', Ok tt) -> autocommit w' = false)
  /\ (forall w', create_addr_gin_index w = (w', Ok tt) -> autocommit w' = false).
Proof.
  intros Ha Ht. split; [ | split; [ | split]].
  - intros d rows Hs Hf. unfold create_addr_btree_index. unfold bind at 1.
    rewrite (execute_manual_ok _ _ _ _ Ha Ht Hs). unfold bind at 1.
    rewrite commit_manual by done. world_simpl.
    unfold bind, set_autocommit, execute. cbn zeta. world_simpl. rewrite Hf.
    eexists. split; [reflexivity | done].
  - intros d rows Hs Hf. unfold create_addr_gin_index. unfold bind at 1.
    rewrite (execute_manual_ok _ _ _ _ Ha Ht Hs). unfold bind at 1.
    rewrite commit_manual by done. world_simpl.
    unfold bind, set_autocommit, execute. cbn zeta. world_simpl. rewrite Hf.
    eexists. split; [reflexivity | done].
  - unfold create_addr_btree_index, bind, set_autocommit, execute, commit.
    cbn zeta. intros w'.
    repeat (world_simpl; case_match; simplify_eq);
      intros Heq; first [discriminate | by injection Heq as <-].
  - unfold create_addr_gin_index, bind, set_autocommit, execute, commit.
    cbn zeta. intros w'.
    repeat (world_simpl; case_match; simplify_eq);
      intros Heq; first [discriminate | by injection Heq as <-].
Qed.

(** X11: in autocommit the revokes of teardown are durable one by one.
    This is about a session in which autocommit opens no transaction, as
    at a call of [teardown_demo] on a connection that is not inside a
    [with] block, or anywhere with psycopg2 up to 2.8: a revoke that
    succeeded stays revoked although a later one fails, since the rollback
    of the handler has nothing to undo. *)
Theorem autocommit_revokes_are_durable d1 r1 d2 r2 (w : World D) :
  autocommit w = true ->
  sem RevokeFunction (working w) = Some (d1, r1) ->
  sem RevokeSchema d1 = Some (d2, r2) ->
  sem RevokeDatabase d2 = None ->
  committed (fst (teardown_revokes w)) = d2
  /\ working (fst (teardown_revokes w)) = d2
  /\ autocommit (fst (teardown_revokes w)) = true.
Proof.
  intros Ha H1 H2 H3.
  unfold teardown_revokes, try_except, try_except_else, bind, execute,
    rollback, ret.
  cbn zeta. world_simpl. rewrite Ha, H1. world_simpl. rewrite ?Ha, H2.
  world_simpl. rewrite ?Ha, H3. cbn [is_Exception fst]. world_simpl. done.
Qed.

End Failures.


(** ** The preload check *)

Section Substring.

Lemma prefix_spec (n h : string) :
  String.prefix n h = true <-> exists post, h = (n ++ post)%string.
Proof.
  revert h. induction n as [ | c n IH]; intros h.
  - split; [intros _; by exists h | by destruct h].
  - destruct h as [ | c' h]; cbn.
    + split; [done | intros [post Hp]; discriminate].
    + destruct (Ascii.ascii_dec c c') as [-> | Hne].
      * rewrite IH. split; intros [post Hp]; exists post.
        -- cbn. by rewrite Hp.
        -- cbn in Hp. by injection Hp.
      * split; [done | ]. intros [post Hp]. cbn in Hp. by injection Hp.
Qed.

Lemma contains_spec (n h : string) :
  contains n h = true <-> exists pre post, h = (pre ++ n ++ post)%string.
Proof.
  induction h as [ | c h IH].
  - cbn [contains]. rewrite orb_false_r, prefix_spec. split.
    + intros [post Hp]. by exists "", post.
    + intros (pre & post & Hp). destruct pre; [by exists post | discriminate].
  - cbn [contains]. rewrite orb_true_iff, prefix_spec, IH. split.
    + intros [[post Hp] | (pre & post & Hp)].
      * by exists "", post.
      * exists (String c pre), post. cbn. by rewrite Hp.
    + intros (pre & post & Hp). destruct pre as [ | c' pre]; cbn in Hp.
      * left. by exists post.
      * right. exists pre, post. by injection Hp.
Qed.

Context {D : Type} `{Database D}.

(** X12: the preload check is a substring test.  When the settings query
    succeeds, [check_preload_library] returns normally, sends nothing else,
    and answers [True] exactly when the first row exists and contains the
    library name somewhere, be it inside a longer name. *)
Theorem check_preload_library_substring lib rows (w w1 : World D) :
  execute Primary SelPreload w = (w1, Ok rows) ->
  exists loaded,
    check_preload_library lib w = (w1, Ok loaded)
    /\ (loaded = true <->
        exists setting rest pre post,
          rows = setting :: rest /\ setting = (pre ++ lib ++ post)%string).
Proof.
  intros Ex. unfold check_preload_library, bind. rewrite Ex.
  destruct rows as [ | setting rest]; cbn [fetchone head].
  - exists false. split; [done | ]. split; [done | ].
    intros (? & ? & ? & ? & ? & _). discriminate.
  - destruct (contains lib setting) eqn:Hc.
    + exists true. split; [done | ]. split; [ | done]. intros _.
      apply contains_spec in Hc as (pre & post & Hp). by exists setting, rest, pre, post.
    + exists false. split; [done | ]. split; [done | ].
      intros (s' & r' & pre & post & [= <- <-] & Hp).
      assert (contains lib setting = true) as Hc'
        by (apply contains_spec; by exists pre, post).
      congruence.
Qed.

End Substring.


(** ** Setup and teardown on the PostgreSQL model *)

Section Progress.
Context {D : Type} `{Database D}.

(** A statement that succeeds on the session's view, in either commit
    mode. *)
Lemma execute_runs s d' rows (w : World D) :
  txn w <> Aborted -> sem s (working w) = Some (d', rows) ->
  exists w', execute Primary s w = (w', Ok rows)
    /\ working w' = d' /\ txn w' <> Aborted /\ EXTENSIONS w' = EXTENSIONS w.
Proof.
  intros Ht Hs. unfold execute. cbn zeta. world_simpl. rewrite Hs.
  destruct (autocommit w), (txn w); try done;
    eexists; (split; [reflexivity | ]); world_simpl; done.
Qed.

Lemma guarded_revoke_succeeds s d' rows (w : World D) :
  txn w <> Aborted -> sem s (working w) = Some (d', rows) ->
  exists w', guarded_revoke s w = (w', Ok tt)
    /\ working w' = d'
    /\ (committed w' = committed w \/ committed w' = d')
    /\ txn w' <> Aborted /\ EXTENSIONS w' = EXTENSIONS w.
Proof.
  intros Ht Hs.
  unfold guarded_revoke, try_except, try_except_else, bind, execute, ret.
  cbn zeta. world_simpl. rewrite Hs.
  destruct (autocommit w), (txn w); try done;
    eexists; (split; [reflexivity | ]); world_simpl; auto.
Qed.

Lemma guarded_revoke_fails s (w : World D) :
  txn w <> Aborted -> sem s (working w) = None ->
  exists w', guarded_revoke s w = (w', Ok tt)
    /\ working w' = committed w /\ committed w' = committed w
    /\ txn w' <> Aborted /\ EXTENSIONS w' = EXTENSIONS w.
Proof.
  intros Ht Hs.
  unfold guarded_revoke, try_except, try_except_else, bind, execute, rollback,
    ret.
  cbn zeta. world_simpl. rewrite Hs.
  destruct (autocommit w), (txn w); try done; cbn [is_Exception];
    eexists; (split; [reflexivity | ]); world_simpl; done.
Qed.

End Progress.

Section PgProgress.

Lemma revoked_from_refl d : revoked_from d d.
Proof. exists (Pg.priv_db d), (Pg.priv_schema d), (Pg.priv_func d).
  split; [by destruct d | by left]. Qed.

(** One guarded revoke on the PostgreSQL model. *)
Lemma pg_guarded_revoke s d (w : World Pg.State) :
  s = RevokeFunction \/ s = RevokeSchema \/ s = RevokeDatabase ->
  txn w <> Aborted ->
  revoked_from d (committed w) -> revoked_from d (working w) ->
  exists w', guarded_revoke s w = (w', Ok tt)
    /\ txn w' <> Aborted
    /\ revoked_from d (committed w') /\ revoked_from d (working w')
    /\ EXTENSIONS w' = EXTENSIONS w
    /\ (s = RevokeDatabase -> Pg.role d && Pg.has_postgres d = true ->
        Pg.priv_db (working w') = false).
Proof.
  intros Hs Ht Hc Hw.
  destruct (sem s (working w)) as [[d' rows] | ] eqn:Hsem.
  - destruct (guarded_revoke_succeeds s d' rows w Ht Hsem)
      as (w' & Er & Ww & Cw & Tw & Xw).
    exists w'. split; [done | ]. split; [done | ].
    assert (revoked_from d d' /\
            (s = RevokeDatabase -> Pg.priv_db d' = false)) as [Hd' Hp].
    { destruct Hw as (pd & ps & pf & Hx & Hpd). rewrite Hx in Hsem.
      destruct d as [pre hp av ex sc ad gi fu ro pdb psc pfu sp].
      cbn [Pg.set_priv_db Pg.set_priv_schema Pg.set_priv_func
           Pg.preload Pg.has_postgres Pg.available Pg.exts Pg.schema Pg.addr
           Pg.gin Pg.func Pg.role Pg.priv_db Pg.priv_schema Pg.priv_func
           Pg.search_path_demo] in Hsem, Hpd.
      destruct Hs as [-> | [-> | ->]];
        cbn [sem Pg.database Pg.exec] in Hsem; unfold Pg.when_ok in Hsem;
        cbn [Pg.set_priv_db Pg.set_priv_schema Pg.set_priv_func
           Pg.preload Pg.has_postgres Pg.available Pg.exts Pg.schema Pg.addr
           Pg.gin Pg.func Pg.role Pg.priv_db Pg.priv_schema Pg.priv_func
           Pg.search_path_demo] in Hsem.
      - destruct (ro && fu); [ | done]. injection Hsem as <- _.
        split; [ | done]. by exists pd, ps, false.
      - destruct (ro && sc); [ | done]. injection Hsem as <- _.
        split; [ | done]. by exists pd, false, pf.
      - destruct (ro && hp) eqn:Hrh; [ | done]. injection Hsem as <- _.
        split; [ | done]. exists false, ps, pf. split; [done | ].
        right. by split. }
    split; [by destruct Cw as [-> | ->] | ].
    split; [by rewrite Ww | ]. split; [done | ].
    rewrite Ww. intros Hrd _. by apply Hp.
  - destruct (guarded_revoke_fails s w Ht Hsem) as (w' & Er & Ww & Cw & Tw & Xw).
    exists w'. split; [done | ]. split; [done | ].
    split; [by rewrite Cw | ]. split; [by rewrite Ww | ]. split; [done | ].
    intros -> Hrh. exfalso.
    destruct Hw as (pd & ps & pf & Hx & Hpd). rewrite Hx in Hsem.
    destruct d as [pre hp av ex sc ad gi fu ro pdb psc pfu sp].
    cbn [sem Pg.database Pg.exec] in Hsem. unfold Pg.when_ok in Hsem.
    cbn [Pg.set_priv_db Pg.set_priv_schema Pg.set_priv_func
           Pg.preload Pg.has_postgres Pg.available Pg.exts Pg.schema Pg.addr
           Pg.gin Pg.func Pg.role Pg.priv_db Pg.priv_schema Pg.priv_func
           Pg.search_path_demo] in Hsem, Hrh.
    by rewrite Hrh in Hsem.
Qed.

(** Once the namespace is gone nothing keeps a demo extension: the loop of
    drops completes. *)
Lemma drop_loop_runs rows (w : World Pg.State) :
  txn w <> Aborted ->
  Pg.gin (working w) = false -> Pg.func (working w) = false ->
  exists w', for_each rows drop_unless_registered w = (w', Ok tt)
             /\ txn w' <> Aborted.
Proof.
  revert w. induction rows as [ | x rows IH]; intros w Ht Hg Hf.
  - by exists w.
  - cbn [for_each]. unfold bind at 1, drop_unless_registered at 1, bind at 1,
      get_EXTENSIONS.
    destruct (decide (x ∈ EXTENSIONS w)) as [ | Hout]; [by apply IH | ].
    assert (exists dx rs, sem (DropExtension x) (working w) = Some (dx, rs)
              /\ Pg.gin dx = false /\ Pg.func dx = false) as (dx & rs & Hs & Hgx & Hfx).
    { cbn [sem Pg.database Pg.exec].
      unfold Pg.installed, Pg.extension_in_use, Pg.when_ok.
      rewrite Hg, Hf, !andb_false_r. cbn [orb negb].
      destruct (bool_decide (x ∈ Pg.exts (working w)));
        eexists _, _; (split; [reflexivity | ]); by destruct (working w). }
    destruct (execute_runs _ _ _ w Ht Hs) as (wx & Ex & Wx & Tx & _).
    unfold bind at 1. rewrite Ex. unfold ret at 1.
    apply IH; by rewrite ?Wx.
Qed.

End PgProgress.


Ltac pg_fields :=
  cbn [Pg.set_exts Pg.set_schema Pg.set_addr Pg.set_gin Pg.set_func Pg.set_role
       Pg.set_priv_db Pg.set_priv_schema Pg.set_priv_func
       Pg.set_search_path_demo Pg.drop_schema_cascade
       Pg.preload Pg.has_postgres Pg.available Pg.exts Pg.schema Pg.addr
       Pg.gin Pg.func Pg.role Pg.priv_db Pg.priv_schema Pg.priv_func
       Pg.search_path_demo] in *.

Section PgRuns.

Lemma in_demo_extensions name :
  name ∈ (list_to_set Pg.demo_extensions : gset string)
  <-> In name Pg.demo_extensions.
Proof. by rewrite elem_of_list_to_set, list_elem_of_In. Qed.

(** Teardown on the PostgreSQL model, from a session that sees the durable
    state [d]. *)
Lemma teardown_pg_run (w : World Pg.State) d :
  steady d (EXTENSIONS w) w ->
  (Pg.role d = true -> Pg.priv_db d = true -> Pg.has_postgres d = true) ->
  exists w', teardown_demo w = (w', Ok tt)
    /\ steady (after_teardown (EXTENSIONS w) d) (EXTENSIONS w) w'
    /\ txn w' = Idle.
Proof.
  intros (Hw & Hc & Ht & _) Hpriv.
  destruct (pg_guarded_revoke RevokeFunction d w)
    as (w1 & E1 & T1 & C1 & W1 & X1 & _);
    [auto | done | rewrite Hc; apply revoked_from_refl
    | rewrite Hw; apply revoked_from_refl | ].
  destruct (pg_guarded_revoke RevokeSchema d w1)
    as (w2 & E2 & T2 & C2 & W2 & X2 & _); [auto | done | done | done | ].
  destruct (pg_guarded_revoke RevokeDatabase d w2)
    as (w3 & E3 & T3 & C3 & W3 & X3 & P3); [auto | done | done | done | ].
  specialize (P3 eq_refl).
  destruct W3 as (pd & ps & pf & Hx & Hpd).
  assert (pd = Pg.priv_db d && negb (Pg.role d)) as Hpd'.
  { rewrite Hx in P3. destruct d as [pre hp av ex sc ad gi fu ro pdb psc pfu sp].
    pg_fields. destruct ro, hp, pdb; cbn in *; intuition congruence. }
  clear Hpd P3 Hpriv C3 C2 C1 W1 W2. subst pd.
  destruct (execute_runs DropSchema (Pg.drop_schema_cascade (working w3)) [] w3)
    as (w4 & E4 & W4 & T4 & X4); [done | done | ].
  set (x5 := Pg.set_role false
               (Pg.drop_schema_cascade
                  (Pg.set_priv_db (Pg.priv_db d && negb (Pg.role d)) d))).
  destruct (execute_runs DropRole x5 [] w4) as (w5 & E5 & W5 & T5 & X5);
    [done | | ].
  { rewrite W4, Hx. subst x5.
    destruct d as [pre hp av ex sc ad gi fu ro pdb psc pfu sp].
    cbn [sem Pg.database Pg.exec]. unfold Pg.when_ok. pg_fields.
    destruct ro; [ | done]. by rewrite andb_false_r. }
  destruct (commit_settled w5) as (w6 & E6 & W6 & C6 & T6 & X6 & _); [by left | ].
  set (rows := List.filter (fun name => Pg.installed name x5) Pg.demo_extensions).
  destruct (execute_runs SelDemoExts x5 rows w6) as (w7 & E7 & W7 & T7 & X7).
  { by rewrite T6. }
  { by rewrite W6, W5. }
  destruct (drop_loop_runs rows w7) as (w8 & E8 & T8);
    [done | rewrite W7; by destruct d .. | ].
  destruct (drop_loop rows w7 w8 E8) as (X8 & _ & E' & W8 & HE').
  destruct (commit_settled w8) as (w9 & E9 & W9 & C9 & T9 & X9 & _); [by left | ].
  assert (EXTENSIONS w7 = EXTENSIONS w) as X by congruence.
  assert (working w8 = after_teardown (EXTENSIONS w) d) as Hfin.
  { rewrite W8, W7. unfold after_teardown. fold x5.
    replace E' with (Pg.exts d ∖ unregistered (EXTENSIONS w)); [done | ].
    apply set_eq. intros name. rewrite HE', W7, X.
    replace (Pg.exts x5) with (Pg.exts d) by (by destruct d).
    unfold unregistered.
    rewrite elem_of_difference, elem_of_difference, in_demo_extensions.
    subst rows. rewrite filter_In. unfold Pg.installed.
    rewrite bool_decide_eq_true.
    replace (Pg.exts x5) with (Pg.exts d) by (by destruct d).
    destruct (decide (name ∈ EXTENSIONS w)); tauto. }
  exists w9. split.
  - unfold teardown_demo. rewrite teardown_revokes_unfold.
    rewrite bind_assoc, (bind_ok _ _ _ _ _ E1).
    rewrite bind_assoc, (bind_ok _ _ _ _ _ E2).
    rewrite (bind_ok _ _ _ _ _ E3).
    unfold teardown_drops.
    rewrite (bind_ok _ _ _ _ _ E4), (bind_ok _ _ _ _ _ E5), (bind_ok _ _ _ _ _ E6).
    rewrite (bind_ok _ _ _ _ _ E7).
    by rewrite (bind_ok _ _ _ _ _ E8).
  - split; [ | done]. unfold steady. rewrite W9, C9, T9, Hfin.
    repeat split; [done | congruence].
Qed.

End PgRuns.


Section Optional.
Context {D : Type} `{Database D}.

(** The guarded creation of an extension in setup. *)
Lemma create_unless_registered s name d' (w : World D) (k : M D unit) :
  txn w <> Aborted ->
  (if decide (name ∈ EXTENSIONS w) then d' = working w
   else exists rows, sem s (working w) = Some (d', rows)) ->
  exists w',
    (let* exts := get_EXTENSIONS in
     (if decide (name ∈ exts) then ret tt else execute Primary s >> ret tt) >> k) w
    = k w'
    /\ working w' = d' /\ txn w' <> Aborted /\ EXTENSIONS w' = EXTENSIONS w.
Proof.
  intros Ht Hd. unfold bind at 1, get_EXTENSIONS at 1.
  destruct (decide (name ∈ EXTENSIONS w)).
  - by exists w.
  - destruct Hd as (rows & Hs).
    destruct (execute_runs s d' rows w Ht Hs) as (w' & Ex & ?).
    exists w'. split; [ | done].
    unfold bind at 1 2. by rewrite Ex.
Qed.

End Optional.

(** Membership in sets of extension names. *)
Ltac names x :=
  unfold unregistered;
  repeat (progress
    rewrite ?elem_of_union, ?elem_of_difference, ?elem_of_singleton,
      ?in_demo_extensions);
  cbn [In Pg.demo_extensions];
  destruct (decide (x = "pg_trgm")) as [? | ];
  destruct (decide (x = "pg_stat_statements")) as [? | ];
  subst; try discriminate;
  intuition (try congruence; try discriminate).

Section PgSetupRun.

Lemma set_exts_twice A B x : Pg.set_exts A (Pg.set_exts B x) = Pg.set_exts A x.
Proof. by destruct x. Qed.

Lemma setup_pg_run (w : World Pg.State) d :
  steady d (EXTENSIONS w) w ->
  Pg.schema d = false ->
  (forall name, In name Pg.demo_extensions ->
     name ∈ EXTENSIONS w \/ (name ∈ Pg.available d /\ name ∉ Pg.exts d)) ->
  exists w', setup_demo w = (w', Ok tt)
    /\ steady (after_setup (EXTENSIONS w) d) (EXTENSIONS w) w'
    /\ txn w' = Idle.
Proof.
  intros (Hw & Hc & Ht & _) Hsch Hext.
  pose proof (Hext "pg_trgm" ltac:(by left)) as Htrgm.
  pose proof (Hext "pg_stat_statements" ltac:(right; by left)) as Hpss.
  clear Hext.
  set (E := EXTENSIONS w) in *.
  destruct (execute_runs CreateSchema (Pg.set_schema true d) [] w)
    as (w1 & E1 & W1 & T1 & X1); [done | | ].
  { rewrite Hw. cbn [sem Pg.database Pg.exec]. by rewrite Hsch. }
  set (d2 := Pg.set_exts (Pg.exts d ∪ ({["pg_trgm"]} ∖ E)) (Pg.set_schema true d)).
  set (d3 := Pg.set_exts (Pg.exts d ∪ unregistered E) (Pg.set_schema true d)).
  unfold setup_demo, try_except_else, setup_statements.
  rewrite (bind_ok _ _ _ _ _ E1).
  match goal with |- context [bind get_EXTENSIONS ?f w1] =>
    match eval cbv beta in (f ∅) with
    | bind _ ?k =>
      destruct (create_unless_registered CreateExtTrgm "pg_trgm" d2 w1 (k tt))
        as (w2 & E2 & W2 & T2 & X2); [done | | ]
    end
  end.
  { rewrite X1. fold E. destruct (decide ("pg_trgm" ∈ E)) as [Hin | Hout].
    - rewrite W1. subst d2.
      replace (Pg.exts d ∪ {["pg_trgm"]} ∖ E) with (Pg.exts d);
        [by destruct d | ].
      apply set_eq. intros x. clear -Hin. names x.
    - exists []. rewrite W1. cbn [sem Pg.database Pg.exec].
      unfold Pg.create_extension, Pg.installed, Pg.when_ok.
      destruct Htrgm as [ | [Hav Hni]]; [done | ].
      replace (Pg.exts (Pg.set_schema true d)) with (Pg.exts d) by (by destruct d).
      replace (Pg.available (Pg.set_schema true d)) with (Pg.available d)
        by (by destruct d).
      rewrite (bool_decide_eq_false_2 _ Hni), (bool_decide_eq_true_2 _ Hav).
      cbn [negb andb]. subst d2. do 2 f_equal.
      replace ({["pg_trgm"]} ∪ Pg.exts d) with (Pg.exts d ∪ {["pg_trgm"]} ∖ E);
        [by destruct d | ].
      apply set_eq. intros x. clear -Hout. names x. }
  rewrite E2. clear E2.
  destruct (create_unless_registered CreateExtPss "pg_stat_statements" d3 w2
              (execute Primary SetSearchPath >> ret tt))
    as (w3 & E3 & W3 & T3 & X3); [done | | ].
  { rewrite X2, X1. fold E.
    destruct (decide ("pg_stat_statements" ∈ E)) as [Hin | Hout].
    - rewrite W2. subst d2 d3.
      replace (Pg.exts d ∪ unregistered E) with (Pg.exts d ∪ {["pg_trgm"]} ∖ E);
        [done | ].
      apply set_eq. intros x. clear -Hin. names x.
    - exists []. rewrite W2. cbn [sem Pg.database Pg.exec].
      unfold Pg.create_extension, Pg.installed, Pg.when_ok.
      destruct Hpss as [ | [Hav Hni]]; [done | ].
      replace (Pg.exts d2) with (Pg.exts d ∪ {["pg_trgm"]} ∖ E)
        by (by destruct d).
      replace (Pg.available d2) with (Pg.available d) by (by destruct d).
      rewrite (bool_decide_eq_true_2 _ Hav), bool_decide_eq_false_2.
      + cbn [negb andb]. subst d2 d3. rewrite set_exts_twice. do 3 f_equal.
        apply set_eq. intros x. clear -Hout. names x.
      + clear -Hni. names "pg_stat_statements". }
  rewrite E3. clear E3.
  destruct (execute_runs SetSearchPath (after_setup E d) [] w3)
    as (w4 & E4 & W4 & T4 & X4); [done | by rewrite W3 | ].
  rewrite (bind_ok _ _ _ _ _ E4). unfold ret at 1.
  destruct (commit_settled w4) as (w5 & E5 & W5 & C5 & T5 & X5 & _); [by left | ].
  exists w5. split; [done | ]. split; [ | done].
  unfold steady. rewrite W5, C5, T5, W4. repeat split; [done | ].
  by rewrite X5, X4, X3, X2, X1.
Qed.

End PgSetupRun.


Section PgLifecycle.

Lemma after_teardown_torn_down E d : Pg.torn_down (after_teardown E d).
Proof. by destruct d. Qed.

(** X13: teardown completes.  On a session that sees the durable state of
    the server, and unless the restricted role holds a privilege on a
    database that the script cannot revoke, teardown returns normally and
    its effect is durable: nothing of the demo is left, the demo extensions
    outside the registry are gone and every other extension is kept, and
    the rest of the server is as it was. *)
Theorem teardown_completes (w : World Pg.State) d :
  steady d (EXTENSIONS w) w ->
  (Pg.role d = true -> Pg.priv_db d = true -> Pg.has_postgres d = true) ->
  exists w',
    teardown_demo w = (w', Ok tt)
    /\ committed w' = after_teardown (EXTENSIONS w) d
    /\ working w' = committed w' /\ txn w' = Idle
    /\ Pg.torn_down (committed w')
    /\ (forall name,
          name ∈ Pg.exts (committed w')
          <-> name ∈ Pg.exts d
              /\ (In name Pg.demo_extensions -> name ∈ EXTENSIONS w)).
Proof.
  intros Hs Hp.
  destruct (teardown_pg_run w d Hs Hp) as (w' & Er & (Hw & Hc & _) & Ht).
  exists w'. split; [done | ]. split; [done | ]. split; [congruence | ].
  split; [done | ]. rewrite Hc. split; [apply after_teardown_torn_down | ].
  intros name.
  replace (Pg.exts (after_teardown (EXTENSIONS w) d))
    with (Pg.exts d ∖ unregistered (EXTENSIONS w)) by (by destruct d).
  unfold unregistered.
  rewrite elem_of_difference, elem_of_difference, in_demo_extensions.
  destruct (decide (name ∈ EXTENSIONS w)); tauto.
Qed.

(** X14: setup and teardown are inverse to each other.  On a server with
    nothing of the demo, where every demo extension is either in the
    registry or installable and not installed, setup completes and makes
    the namespace and the missing extensions durable; the teardown that
    follows completes as well and leaves the server as it was before setup,
    the search path apart. *)
Theorem setup_teardown_round_trip (w : World Pg.State) d :
  steady d (EXTENSIONS w) w ->
  Pg.torn_down d ->
  (forall name, In name Pg.demo_extensions ->
     name ∈ EXTENSIONS w \/ (name ∈ Pg.available d /\ name ∉ Pg.exts d)) ->
  exists w1 w2,
    setup_demo w = (w1, Ok tt)
    /\ Pg.schema (committed w1) = true
    /\ (forall name, In name Pg.demo_extensions -> name ∉ EXTENSIONS w ->
          name ∈ Pg.exts (committed w1))
    /\ teardown_demo w1 = (w2, Ok tt)
    /\ committed w2 = Pg.set_search_path_demo true d
    /\ working w2 = committed w2 /\ txn w2 = Idle.
Proof.
  intros Hs Htd Hext.
  assert (Pg.schema d = false) as Hsch by (by destruct Htd).
  assert (Pg.role d = false) as Hro by (by destruct Htd as (_&_&_&_&_&_&?)).
  destruct (setup_pg_run w d Hs Hsch Hext) as (w1 & E1 & S1 & T1).
  pose proof S1 as (W1 & C1 & _ & X1).
  rewrite <- X1 in S1 at 2.
  destruct (teardown_pg_run w1 _ S1) as (w2 & E2 & (W2 & C2 & _) & T2).
  { replace (Pg.role (after_setup (EXTENSIONS w) d)) with (Pg.role d)
      by (by destruct d).
    by rewrite Hro. }
  exists w1, w2. split; [done | ]. rewrite C1.
  split; [by destruct d | ]. split.
  { intros name Hn Hout.
    replace (Pg.exts (after_setup (EXTENSIONS w) d))
      with (Pg.exts d ∪ unregistered (EXTENSIONS w)) by (by destruct d).
    unfold unregistered.
    rewrite elem_of_union, elem_of_difference, in_demo_extensions. tauto. }
  split; [done | ]. split; [ | split; [congruence | done]].
  rewrite C2, X1. clear -Htd Hext.
  assert ((Pg.exts d ∪ unregistered (EXTENSIONS w))
            ∖ unregistered (EXTENSIONS w) = Pg.exts d) as Hex.
  { apply set_eq. intros name. unfold unregistered.
    rewrite elem_of_difference, elem_of_union, elem_of_difference,
      in_demo_extensions.
    specialize (Hext name).
    destruct (decide (name ∈ EXTENSIONS w)); tauto. }
  unfold after_teardown, after_setup.
  revert Hex. generalize (unregistered (EXTENSIONS w)). intros U Hex.
  destruct d as [pre hp av ex sc ad gi fu ro pdb psc pfu sp].
  destruct Htd as (Hsc & Had & Hgi & Hfu & Hps & Hpf & Hr).
  cbn [Pg.schema Pg.addr Pg.gin Pg.func Pg.role Pg.priv_schema Pg.priv_func
       Pg.exts] in *.
  subst. unfold Pg.drop_schema_cascade.
  cbn [Pg.set_exts Pg.set_schema Pg.set_addr Pg.set_gin Pg.set_func Pg.set_role
       Pg.set_priv_db Pg.set_priv_schema Pg.set_priv_func
       Pg.set_search_path_demo
       Pg.preload Pg.has_postgres Pg.available Pg.exts Pg.schema Pg.addr
       Pg.gin Pg.func Pg.role Pg.priv_db Pg.priv_schema Pg.priv_func
       Pg.search_path_demo negb].
  by rewrite Hex, andb_true_r.
Qed.

End PgLifecycle.

(** Teardown of what a demo run left behind, with an empty registry. *)
Lemma teardown_completes_witness :
  let w := start Pg.after_demo [] in
  steady Pg.after_demo (EXTENSIONS w) w
  /\ exists w',
       teardown_demo w = (w', Ok tt)
       /\ committed w' = after_teardown (EXTENSIONS w) Pg.after_demo
       /\ working w' = committed w' /\ txn w' = Idle
       /\ Pg.torn_down (committed w')
       /\ (forall name,
             name ∈ Pg.exts (committed w')
             <-> name ∈ Pg.exts Pg.after_demo
                 /\ (In name Pg.demo_extensions -> name ∈ EXTENSIONS w)).
Proof.
  cbn zeta.
  assert (steady Pg.after_demo ∅ (start Pg.after_demo [])) as Hs
    by (by repeat split).
  split; [exact Hs | ].
  apply (teardown_completes (start Pg.after_demo []) Pg.after_demo Hs).
  reflexivity.
Defined.

(** Setup, then teardown, on a fresh server. *)
Lemma setup_teardown_round_trip_witness :
  let w := start Pg.fresh [] in
  Pg.torn_down Pg.fresh
  /\ exists w1 w2,
       setup_demo w = (w1, Ok tt)
       /\ Pg.schema (committed w1) = true
       /\ (forall name, In name Pg.demo_extensions -> name ∉ EXTENSIONS w ->
             name ∈ Pg.exts (committed w1))
       /\ teardown_demo w1 = (w2, Ok tt)
       /\ committed w2 = Pg.set_search_path_demo true Pg.fresh
       /\ working w2 = committed w2 /\ txn w2 = Idle.
Proof.
  cbn zeta.
  assert (Pg.torn_down Pg.fresh) as Htd by (by repeat split).
  split; [exact Htd | ].
  apply (setup_teardown_round_trip (start Pg.fresh []) Pg.fresh);
    [by repeat split | exact Htd | ].
  intros name [<- | [<- | []]]; right; split; decide_by_computation.
Defined.


(** ** Text helpers *)

Section Text.

Lemma str_split_nonempty sep s : str_split sep s <> [].
Proof.
  destruct s as [ | c rest]; cbn; [done | ].
  destruct (Ascii.eqb c sep); [done | ]. by destruct (str_split sep rest).
Qed.

Lemma str_join_cons sep p ps :
  ps <> [] -> str_join sep (p :: ps) = p +:+ sep +:+ str_join sep ps.
Proof. by destruct ps. Qed.

(** Joining the parts of a split gives the text back. *)
Lemma str_join_split sep s : str_join (String sep "") (str_split sep s) = s.
Proof.
  induction s as [ | c rest IH]; [done | ]. cbn [str_split].
  pose proof (str_split_nonempty sep rest) as Hne.
  destruct (Ascii.eqb_spec c sep) as [-> | Hc].
  - rewrite str_join_cons by done. rewrite IH. done.
  - destruct (str_split sep rest) as [ | t ts]; [done | ].
    destruct ts as [ | t' ts]; [by rewrite <- IH | ].
    rewrite str_join_cons by done. rewrite str_join_cons in IH by done.
    by rewrite <- IH.
Qed.

Lemma str_split_clean sep s :
  Forall (fun t => occurs sep t = false) (str_split sep s).
Proof.
  induction s as [ | c rest IH]; cbn [str_split]; [by constructor | ].
  destruct (Ascii.eqb c sep) eqn:Hc; [by constructor | ].
  destruct (str_split sep rest) as [ | t ts]; [by repeat constructor; cbn; rewrite Hc | ].
  inversion IH; subst. constructor; [ | done]. cbn. by rewrite Hc.
Qed.

Lemma str_split_app sep p rest :
  occurs sep p = false ->
  str_split sep (p +:+ String sep rest) = p :: str_split sep rest.
Proof.
  induction p as [ | a p IH]; cbn [occurs].
  - intros _. change ("" +:+ ?x) with x. cbn [str_split].
    by rewrite Ascii.eqb_refl.
  - intros Ho. apply orb_false_iff in Ho as [Ha Hp].
    change (String a p +:+ ?x) with (String a (p +:+ x)). cbn [str_split].
    rewrite Ha, (IH Hp). done.
Qed.

Lemma str_split_single sep p :
  occurs sep p = false -> str_split sep p = [p].
Proof.
  induction p as [ | a p IH]; cbn [occurs str_split]; [done | ].
  intros Ho. apply orb_false_iff in Ho as [Ha Hp]. by rewrite Ha, (IH Hp).
Qed.

(** Splitting a join of parts without the separator gives the parts back. *)
Lemma str_split_join sep parts :
  parts <> [] -> Forall (fun t => occurs sep t = false) parts ->
  str_split sep (str_join (String sep "") parts) = parts.
Proof.
  induction parts as [ | p ps IH]; [done | ]. intros _ Hall.
  inversion Hall as [ | ? ? Hp Hps]; subst.
  destruct ps as [ | q qs]; [by apply str_split_single | ].
  rewrite str_join_cons by done.
  change (String sep "" +:+ ?x) with (String sep x).
  rewrite (str_split_app _ _ _ Hp). f_equal. by apply IH.
Qed.

Lemma length_str_split sep s :
  length (str_split sep s) = S (count_char sep s).
Proof.
  induction s as [ | c rest IH]; [done | ]. cbn [str_split count_char].
  destruct (Ascii.eqb c sep); cbn [length]; [by rewrite IH | ].
  destruct (str_split sep rest); cbn [length] in *; lia.
Qed.

Lemma occurs_app c s t : occurs c (s +:+ t) = occurs c s || occurs c t.
Proof.
  induction s as [ | a s IH]; [done | ].
  change (String a s +:+ t) with (String a (s +:+ t)). cbn [occurs].
  by rewrite IH, orb_assoc.
Qed.

Lemma endswith_app s suffix : endswith (s +:+ suffix) suffix = true.
Proof.
  induction s as [ | a s IH].
  - change ("" +:+ suffix) with suffix.
    destruct suffix; cbn [endswith]; by rewrite String.eqb_refl.
  - change (String a s +:+ suffix) with (String a (s +:+ suffix)).
    cbn [endswith]. by destruct (String.eqb _ _).
Qed.

Lemma but_last_app s a : but_last (s +:+ String a "") = s.
Proof.
  induction s as [ | b s IH]; [done | ].
  change (String b s +:+ ?x) with (String b (s +:+ x)). cbn [but_last].
  rewrite IH. by destruct s.
Qed.

End Text.


Section TextFunctions.

Lemma index_from_end_app {A} (l : list A) (tail : list A) k x :
  k <= length tail -> tail !! (length tail - k) = Some x -> 0 < k ->
  index_from_end k (l ++ tail) = Some x.
Proof.
  intros Hk Hx Hpos. unfold index_from_end. rewrite length_app.
  destruct (Nat.ltb_spec (length l + length tail) k) as [ | _]; [lia | ].
  rewrite lookup_app_r by lia. rewrite <- Hx. f_equal. lia.
Qed.

(** [parse_csz] on a line of fields separated by single spaces. *)
Lemma parse_csz_run (words : list string) (p3 state zipcode : string) :
  Forall (fun t => occurs space t = false) (words ++ [p3; state; zipcode]) ->
  parse_csz (str_join " " (words ++ [p3; state; zipcode]))
  = Some (str_join " "
            (words ++ [if endswith p3 "," then but_last p3 else p3]),
          state, zipcode).
Proof.
  intros Hclean. unfold parse_csz.
  change " " with (String space "").
  rewrite str_split_join by (done || by destruct words).
  rewrite (index_from_end_app words [p3; state; zipcode] 1 zipcode)
    by (cbn; done || lia).
  rewrite (index_from_end_app words [p3; state; zipcode] 2 state)
    by (cbn; done || lia).
  rewrite (index_from_end_app words [p3; state; zipcode] 3 p3)
    by (cbn; done || lia).
  cbn zeta. do 2 f_equal. f_equal.
  destruct (endswith p3 ",").
  - rewrite length_insert, length_app. cbn [length].
    rewrite insert_app_r_alt by lia.
    replace (length words + 3 - 3 - length words) with 0 by lia.
    cbn [insert list_insert].
    replace (length words + 3 - 2) with (length words + 1) by lia.
    by rewrite take_app_add.
  - rewrite length_app. cbn [length].
    replace (length words + 3 - 2) with (length words + 1) by lia.
    by rewrite take_app_add.
Qed.

(** X15: [parse_csz] takes a city-state-zip line apart.  On a line of
    fields separated by single spaces, the last field is the zip code, the
    one before it the state, and the fields before them, joined again, are
    the city, without the comma that ends it; a city without the comma is
    taken as it is. *)
Theorem parse_csz_fields (words : list string) (city_end state zipcode : string) :
  Forall (fun t => occurs space t = false)
    (words ++ [city_end; state; zipcode]) ->
  parse_csz (str_join " " (words ++ [city_end +:+ ","; state; zipcode]))
  = Some (str_join " " (words ++ [city_end]), state, zipcode)
  /\ (endswith city_end "," = false ->
      parse_csz (str_join " " (words ++ [city_end; state; zipcode]))
      = Some (str_join " " (words ++ [city_end]), state, zipcode)).
Proof.
  intros Hclean. split.
  - rewrite parse_csz_run.
    + by rewrite endswith_app, but_last_app.
    + apply Forall_app in Hclean as [Hw Ht]. apply Forall_app. split; [done | ].
      inversion Ht as [ | ? ? Hc Hr]; subst. constructor; [ | done].
      by rewrite occurs_app, Hc.
  - intros Hno. rewrite parse_csz_run by done. by rewrite Hno.
Qed.

(** X16: [parse_csz] raises exactly on the lines with fewer than three
    fields, that is, with fewer than two spaces; on every other line it
    returns. *)
Theorem parse_csz_raises_iff_short (csz : string) :
  parse_csz csz = None <-> count_char space csz < 2.
Proof.
  unfold parse_csz, index_from_end.
  rewrite length_str_split.
  pose proof (length_str_split space csz) as Hlen.
  destruct (Nat.ltb_spec (S (count_char space csz)) 1) as [ | _]; [lia | ].
  destruct (str_split space csz !! (S (count_char space csz) - 1))
    as [z | ] eqn:Hz;
    [ | apply lookup_ge_None in Hz; lia].
  destruct (Nat.ltb_spec (S (count_char space csz)) 2) as [ | _];
    [split; [lia | done] | ].
  destruct (str_split space csz !! (S (count_char space csz) - 2))
    as [st | ] eqn:Hs;
    [ | apply lookup_ge_None in Hs; lia].
  destruct (Nat.ltb_spec (S (count_char space csz)) 3) as [ | H3];
    [split; [lia | done] | ].
  destruct (str_split space csz !! (S (count_char space csz) - 3))
    as [p | ] eqn:Hp;
    [ | apply lookup_ge_None in Hp; lia].
  cbn zeta. split; [done | lia].
Qed.

Lemma occurs_spaces c n t :
  Ascii.eqb space c = false ->
  occurs c (str_mul n " " +:+ t) = occurs c t.
Proof.
  intros Hc. induction n as [ | n IH]; [done | ]. cbn [str_mul].
  change (" " +:+ ?x) with (String space x).
  change (String space ?x +:+ t) with (String space (x +:+ t)).
  cbn [occurs]. by rewrite Hc, IH.
Qed.

Lemma imap_indent n (lines : list string) :
  imap (fun i t => match i with
                   | 0 => t
                   | S _ => str_mul n " " +:+ t
                   end) lines
  = match lines with
    | [] => []
    | first :: rest => first :: ((fun t => str_mul n " " +:+ t) <$> rest)
    end.
Proof.
  destruct lines as [ | first rest]; [done | ].
  rewrite imap_cons. f_equal.
  exact (imap_const (fun t => str_mul n " " +:+ t) rest).
Qed.

(** X17: [indent] keeps the lines of a text.  With the line separator of
    POSIX, the lines of the result are the lines of the text, in order, each
    but the first behind [lindent] spaces; no line is added, lost or
    merged, and with no indentation the text is returned as it is. *)
Theorem indent_keeps_lines (txt : string) (lindent : nat) :
  exists first rest,
    str_split newline txt = first :: rest
    /\ str_split newline (indent (String newline "") txt lindent)
       = first :: ((fun t => str_mul lindent " " +:+ t) <$> rest)
    /\ indent (String newline "") txt 0 = txt.
Proof.
  pose proof (str_split_nonempty newline txt) as Hne.
  pose proof (str_split_clean newline txt) as Hclean.
  destruct (str_split newline txt) as [ | first rest] eqn:Hsplit; [done | ].
  exists first, rest. split; [done | ].
  unfold indent. rewrite Hsplit, !imap_indent. split.
  - apply str_split_join; [done | ].
    inversion Hclean as [ | ? ? Hf Hr]; subst. constructor; [done | ].
    apply Forall_fmap. eapply Forall_impl; [exact Hr | ].
    intros t Ht. cbn. by rewrite occurs_spaces.
  - replace ((fun t => str_mul 0 " " +:+ t) <$> rest) with rest.
    + rewrite <- Hsplit. apply str_join_split.
    + clear. induction rest as [ | t rest IH]; [done | ].
      rewrite fmap_cons. by rewrite <- IH.
Qed.

End TextFunctions.

(** A city of two words. *)
Lemma parse_csz_fields_witness :
  Forall (fun t => occurs space t = false) (["New"] ++ ["York"; "NY"; "10001"])
  /\ parse_csz "New York, NY 10001" = Some ("New York", "NY", "10001")
  /\ (endswith "York" "," = false ->
      parse_csz "New York NY 10001" = Some ("New York", "NY", "10001")).
Proof.
  assert (Forall (fun t => occurs space t = false)
            (["New"] ++ ["York"; "NY"; "10001"])) as Hclean
    by (repeat constructor).
  split; [exact Hclean | ].
  exact (parse_csz_fields ["New"] "York" "NY" "10001" Hclean).
Defined.


(** ** Concrete runs of the further properties *)

(** Validation on a server where pg_trgm was installed before. *)
Lemma validation_fills_registry_witness :
  let w := start Pg.with_trgm [] in
  let w' := fst (validate_demo w) in
  validate_demo w = (w', Ok true)
  /\ exists w1 rows,
       execute Primary SelExtensions
         (fst (check_preload_library "pg_stat_statements" w)) = (w1, Ok rows)
       /\ (forall name,
             name ∈ EXTENSIONS w' <-> name ∈ rows \/ name ∈ EXTENSIONS w)
       /\ txn w' = Idle /\ working w' = committed w'
       /\ (autocommit w = false -> committed w' = committed w).
Proof.
  cbn zeta.
  assert (validate_demo (start Pg.with_trgm [])
          = (fst (validate_demo (start Pg.with_trgm [])), Ok true)) as Hv
    by (by vm_compute).
  split; [exact Hv | ].
  exact (validation_fills_registry (start Pg.with_trgm []) _ Hv).
Defined.

(** A run without teardown on a fresh server, with no key pressed. *)
Lemma teardown_runs_iff_requested_witness :
  can_connect Primary Pg.fresh = true
  /\ count is_ns_drop
       (trace (fst (run_demo true false false (start Pg.fresh [])))) = 0
  /\ (false || false = false ->
      Forall no_teardown_stmt
        (trace (fst (run_demo true false false (start Pg.fresh []))))).
Proof.
  split; [reflexivity | ].
  apply (teardown_runs_iff_requested true false false Pg.fresh []). reflexivity.
Defined.

(** A teardown-only run on a server where pg_trgm was installed before. *)
Lemma teardown_only_sends_teardown_only_witness :
  can_connect Primary Pg.with_trgm = true
  /\ Forall only_teardown_stmt
       (trace (fst (run_demo true true true (start Pg.with_trgm []))))
  /\ EXTENSIONS (fst (run_demo true true true (start Pg.with_trgm []))) = ∅.
Proof.
  split; [reflexivity | ].
  apply (teardown_only_sends_teardown_only true true Pg.with_trgm []).
  reflexivity.
Defined.

(** [--url ... --only-teardown]. *)
Lemma command_line_teardown_witness :
  let argv := [ArgUrl "postgresql://localhost/postgres"; ArgOnlyTeardown] in
  let args := mkArgs "postgresql://localhost/postgres" true true true in
  parse_args argv = Some args
  /\ can_connect Primary Pg.after_demo = true
  /\ (if can_connect Primary Pg.after_demo
      then count is_ns_drop (trace (fst (main args (start Pg.after_demo []))))
           = (if existsb (is_flag ArgNoTeardown) argv then 0 else 1)
      else main args (start Pg.after_demo [])
           = (start Pg.after_demo [], Raise OperationalError)
           /\ trace (fst (main args (start Pg.after_demo []))) = [])
  /\ snd (main args (start Pg.after_demo [])) <> Raise KeyboardInterrupt
  /\ (teardown args = false -> block_demo args = false).
Proof.
  cbn zeta. split; [reflexivity | ]. split; [reflexivity | ].
  apply (command_line_teardown
           [ArgUrl "postgresql://localhost/postgres"; ArgOnlyTeardown]
           (mkArgs "postgresql://localhost/postgres" true true true)
           Pg.after_demo []); reflexivity.
Defined.

(** Teardown on a server that refuses to drop the role. *)
Lemma teardown_stops_at_failed_drop_witness :
  let w := start Faulty.drop_role_fails [] in
  autocommit w = false
  /\ snd (teardown_demo w) = Raise (DbError DropRole)
  /\ (sem DropSchema (working (fst (teardown_revokes w))) = None ->
      exists w',
        teardown_demo w = (w', Raise (DbError DropSchema))
        /\ trace w' = trace (fst (teardown_revokes w))
                      ++ [EExec Primary DropSchema]
        /\ committed w' = committed w /\ txn w' = Aborted)
  /\ (forall d rows,
        sem DropSchema (working (fst (teardown_revokes w))) = Some (d, rows) ->
        sem DropRole d = None ->
        exists w',
          teardown_demo w = (w', Raise (DbError DropRole))
          /\ trace w' = trace (fst (teardown_revokes w))
                        ++ [EExec Primary DropSchema; EExec Primary DropRole]
          /\ committed w' = committed w /\ txn w' = Aborted).
Proof.
  cbn zeta. split; [reflexivity | ]. split; [reflexivity | ].
  apply (teardown_stops_at_failed_drop (start Faulty.drop_role_fails [])).
  reflexivity.
Defined.

(** The disk is full after three bulk copies. *)
Lemma init_pg_trgm_keeps_committed_batches_witness :
  let d := Faulty.disk_full_after 3 in
  let dt := Faulty.mk (Faulty.fails d) [CreateAddrTable] in
  let dk := Faulty.mk (Faulty.fails d)
              [CopyAddr; CopyAddr; CopyAddr; CreateAddrTable] in
  let w := start d [] in
  autocommit w = false /\ txn w <> Aborted
  /\ sem CreateAddrTable (working w) = Some (dt, [])
  /\ copies 3 dt = Some dk /\ sem CopyAddr dk = None /\ 3 < 10
  /\ exists w',
       init_pg_trgm w = (w', Raise (DbError CopyAddr))
       /\ committed w' = dk /\ working w' = dk
       /\ txn w' = Idle /\ autocommit w' = false.
Proof.
  cbn zeta. split; [reflexivity | ]. split; [discriminate | ].
  split; [reflexivity | ]. split; [reflexivity | ]. split; [reflexivity | ].
  split; [lia | ].
  apply (init_pg_trgm_keeps_committed_batches 3
           (Faulty.mk (Faulty.fails (Faulty.disk_full_after 3))
              [CreateAddrTable]) []
           (Faulty.mk (Faulty.fails (Faulty.disk_full_after 3))
              [CopyAddr; CopyAddr; CopyAddr; CreateAddrTable])
           (start (Faulty.disk_full_after 3) []));
    [reflexivity | discriminate | reflexivity | reflexivity | reflexivity | lia].
Defined.

(** The index builders on a server where ANALYZE fails. *)
Lemma analyze_failure_leaves_autocommit_witness :
  let w := start Faulty.analyze_fails [] in
  autocommit w = false /\ txn w <> Aborted
  /\ autocommit (fst (create_addr_btree_index w)) = true
  /\ (forall d rows,
        sem CreateBtreeIndex (working w) = Some (d, rows) ->
        sem AnalyzeAddr d = None ->
        exists w',
          create_addr_btree_index w = (w', Raise (DbError AnalyzeAddr))
          /\ autocommit w' = true /\ committed w' = d /\ txn w' = Idle)
  /\ (forall d rows,
        sem CreateGinIndex (working w) = Some (d, rows) ->
        sem AnalyzeAddr d = None ->
        exists w',
          create_addr_gin_index w = (w', Raise (DbError AnalyzeAddr))
          /\ autocommit w' = true /\ committed w' = d /\ txn w' = Idle)
  /\ (forall w', create_addr_btree_index w = (w', Ok tt) ->
                 autocommit w' = false)
  /\ (forall w', create_addr_gin_index w = (w', Ok tt) ->
                 autocommit w' = false).
Proof.
  cbn zeta. split; [reflexivity | ]. split; [discriminate | ].
  split; [reflexivity | ].
  apply (analyze_failure_leaves_autocommit (start Faulty.analyze_fails []));
    [reflexivity | discriminate].
Defined.

(** Teardown in autocommit on a server without a database named postgres:
    the privilege on the function stays revoked. *)
Lemma autocommit_revokes_are_durable_witness :
  let d := Pg.no_postgres_database in
  let d1 := Pg.set_priv_func false d in
  let d2 := Pg.set_priv_schema false d1 in
  let w := mkWorld d d Idle true None ∅ [] [] in
  autocommit w = true
  /\ sem RevokeFunction (working w) = Some (d1, [])
  /\ sem RevokeSchema d1 = Some (d2, [])
  /\ sem RevokeDatabase d2 = None
  /\ Pg.priv_func (committed w) = true
  /\ Pg.priv_func d2 = false
  /\ committed (fst (teardown_revokes w)) = d2
  /\ working (fst (teardown_revokes w)) = d2
  /\ autocommit (fst (teardown_revokes w)) = true.
Proof.
  cbn zeta. do 6 (split; [reflexivity | ]).
  apply (autocommit_revokes_are_durable
           (Pg.set_priv_func false Pg.no_postgres_database) []
           (Pg.set_priv_schema false
              (Pg.set_priv_func false Pg.no_postgres_database)) []
           (mkWorld Pg.no_postgres_database Pg.no_postgres_database Idle true
              None ∅ [] [])); reflexivity.
Defined.

(** A library with a longer name passes for pg_stat_statements. *)
Lemma check_preload_library_substring_witness :
  let d := Pg.mk (Some "my_pg_stat_statements_fork") true ∅ ∅
             false false false false false false false false false in
  let w := start d [] in
  let w1 := fst (execute Primary SelPreload w) in
  execute Primary SelPreload w = (w1, Ok ["my_pg_stat_statements_fork"])
  /\ snd (check_preload_library "pg_stat_statements" w) = Ok true
  /\ exists loaded,
       check_preload_library "pg_stat_statements" w = (w1, Ok loaded)
       /\ (loaded = true <->
           exists setting rest pre post,
             ["my_pg_stat_statements_fork"] = setting :: rest
             /\ setting = (pre ++ "pg_stat_statements" ++ post)%string).
Proof.
  cbn zeta. split; [reflexivity | ]. split; [reflexivity | ].
  apply (check_preload_library_substring "pg_stat_statements"
           ["my_pg_stat_statements_fork"]
           (start (Pg.mk (Some "my_pg_stat_statements_fork") true ∅ ∅
                     false false false false false false false false false) [])).
  reflexivity.
Defined.
